(** * The pitch-tracking mission controller of the EVA microphone station

    A shallow embedding of the mission logic of [class EVAMicrophoneStation]
    (reference_script.js): the spectral peak picker [findDominantFrequency],
    the tolerance test [checkTargetHit], the hold/complete logic of
    [handleTargetHit] and [completeMission], the delayed callbacks
    [nextMission] and [enterEndlessMode], and the start/stop button.

    Conventions of the embedding.
    - A JavaScript Number that holds a frequency, a level in dB or a ratio is
      an exact rational ([Q]); the rounding of binary64 arithmetic is not
      modelled.  Values of [Date.now()] and their differences are integers
      ([Z]); array indices and counters are naturals.
    - The object [this] is a record that every method takes and returns.
    - [setTimeout] appends a callback to the list of pending timers carried
      by the record; the event [Timeout] runs the oldest one.  Only the two
      callbacks of [completeMission] are kept: the one of
      [showSuccessAnimation] removes a CSS class and the retry of
      [visualizationLoop] is one more frame.
    - DOM rendering (texts, colours, CSS classes, the canvas and its pitch
      trail) is left out, except for the progress value handed to
      [updateHitProgress].  The rendering code reads the current and the next
      target tone; both exist on every station the event loop can produce
      (see [consistent]), which is why statements about completing a mission
      are made for reachable stations. *)

From Stdlib Require Import String ZArith QArith Qabs Qround List Bool Lia.
From Stdlib Require Import Permutation.
Import ListNotations.

Local Open Scope Z_scope.

(** ** Spectrum: the contents of [frequencyBins] *)

(** A level in dB as [getFloatFrequencyData] delivers it: a finite value, or
    minus infinity for a bin without energy. *)
Inductive dB : Type :=
| NegInf
| Fin (level : Q).

(** [a > b] on levels. *)
Definition dB_gt (a b : dB) : bool :=
  match a, b with
  | NegInf, _ => false
  | Fin _, NegInf => true
  | Fin x, Fin y => negb (Qle_bool x y)
  end.

(** [a <= b] on levels, as a proposition. *)
Definition dB_le (a b : dB) : Prop :=
  match a, b with
  | NegInf, _ => True
  | Fin _, NegInf => False
  | Fin x, Fin y => (x <= y)%Q
  end.

(** The energy floor of [findDominantFrequency]: -60 dB. *)
Definition energyFloor : dB := Fin (-60).

(** The body of the [for] loop of [findDominantFrequency], run [n] times from
    index [i]; the accumulator is [(maxIndex, maxValue)].  A read past the end
    of the array gives [undefined], which is greater than nothing, as
    [NegInf] is. *)
Fixpoint scanBins (frequencyBins : list dB) (i n : nat) (acc : nat * dB)
  : nat * dB :=
  match n with
  | O => acc
  | S n' =>
      let v := nth i frequencyBins NegInf in
      scanBins frequencyBins (S i) n'
        (if dB_gt v (snd acc) then (i, v) else acc)
  end.

Definition startIndex (len : nat) (sampleRate : Q) : nat :=
  Z.to_nat (Qfloor (100 * inject_Z (Z.of_nat len) / (sampleRate / 2))).

Definition endIndex (len : nat) (sampleRate : Q) : nat :=
  Z.to_nat (Qfloor (1000 * inject_Z (Z.of_nat len) / (sampleRate / 2))).

(** The loop bound [Math.min(endIndex, frequencyBins.length)]. *)
Definition stopIndex (len : nat) (sampleRate : Q) : nat :=
  Nat.min (endIndex len sampleRate) len.

(** The frequency of bin [i]: [(i * sampleRate) / (2 * length)]. *)
Definition binFrequency (len : nat) (sampleRate : Q) (i : nat) : Q :=
  (inject_Z (Z.of_nat i) * sampleRate / (2 * inject_Z (Z.of_nat len)))%Q.

Definition findDominantFrequency (frequencyBins : list dB) (sampleRate : Q)
  : Q :=
  let len := length frequencyBins in
  let first := startIndex len sampleRate in
  let '(maxIndex, maxValue) :=
    scanBins frequencyBins first (stopIndex len sampleRate - first)
      (O, NegInf) in
  if dB_gt maxValue energyFloor
  then binFrequency len sampleRate maxIndex
  else 0%Q.

(** ** The station object *)

Record TargetTone : Type := {
  note : string;
  frequency : Q;
  color : string
}.

Definition targetTones : list TargetTone :=
  [ {| note := "C"; frequency := 26163 # 100; color := "#ff6b6b" |};
    {| note := "F#"; frequency := 36999 # 100; color := "#4ecdc4" |};
    {| note := "A"; frequency := 440 # 1; color := "#45b7d1" |} ]%string.

Definition tolerance : Q := 40 # 1.
Definition requiredHitDuration : Z := 1500.

(** The callbacks that [completeMission] hands to [setTimeout]. *)
Inductive callback : Type :=
| NextMission
| EnterEndlessMode.

Record timer : Type := {
  timer_callback : callback;
  timer_delay : Z
}.

Record AudioContext : Type := {
  ctx_sampleRate : Q
}.

Record Station : Type := {
  audioContext : option AudioContext;
  isRecording : bool;
  sampleRate : option Q;
  currentToneIndex : nat;
  isHittingTarget : bool;
  hitStartTime : Z;
  hitDuration : Z;
  missionCompleted : bool;
  completedTones : nat;
  endlessMode : bool;
  (* the last argument of updateHitProgress, if it was called at all *)
  hitProgress : option Q;
  (* callbacks registered with setTimeout that did not run yet *)
  timers : list timer
}.

(** The state the constructor leaves. *)
Definition initialStation : Station := {|
  audioContext := None;
  isRecording := false;
  sampleRate := None;
  currentToneIndex := 0;
  isHittingTarget := false;
  hitStartTime := 0;
  hitDuration := 0;
  missionCompleted := false;
  completedTones := 0;
  endlessMode := false;
  hitProgress := None;
  timers := []
|}.

(** Field assignments [this.x = v]. *)
Definition set_recording (ctx : option AudioContext) (b : bool) (st : Station)
  : Station :=
  {| audioContext := ctx; isRecording := b;
     sampleRate := sampleRate st; currentToneIndex := currentToneIndex st;
     isHittingTarget := isHittingTarget st; hitStartTime := hitStartTime st;
     hitDuration := hitDuration st; missionCompleted := missionCompleted st;
     completedTones := completedTones st; endlessMode := endlessMode st;
     hitProgress := hitProgress st; timers := timers st |}.

Definition set_sampleRate (r : option Q) (st : Station) : Station :=
  {| audioContext := audioContext st; isRecording := isRecording st;
     sampleRate := r; currentToneIndex := currentToneIndex st;
     isHittingTarget := isHittingTarget st; hitStartTime := hitStartTime st;
     hitDuration := hitDuration st; missionCompleted := missionCompleted st;
     completedTones := completedTones st; endlessMode := endlessMode st;
     hitProgress := hitProgress st; timers := timers st |}.

Definition set_currentToneIndex (i : nat) (st : Station) : Station :=
  {| audioContext := audioContext st; isRecording := isRecording st;
     sampleRate := sampleRate st; currentToneIndex := i;
     isHittingTarget := isHittingTarget st; hitStartTime := hitStartTime st;
     hitDuration := hitDuration st; missionCompleted := missionCompleted st;
     completedTones := completedTones st; endlessMode := endlessMode st;
     hitProgress := hitProgress st; timers := timers st |}.

Definition set_isHittingTarget (b : bool) (st : Station) : Station :=
  {| audioContext := audioContext st; isRecording := isRecording st;
     sampleRate := sampleRate st; currentToneIndex := currentToneIndex st;
     isHittingTarget := b; hitStartTime := hitStartTime st;
     hitDuration := hitDuration st; missionCompleted := missionCompleted st;
     completedTones := completedTones st; endlessMode := endlessMode st;
     hitProgress := hitProgress st; timers := timers st |}.

Definition set_hitStartTime (t : Z) (st : Station) : Station :=
  {| audioContext := audioContext st; isRecording := isRecording st;
     sampleRate := sampleRate st; currentToneIndex := currentToneIndex st;
     isHittingTarget := isHittingTarget st; hitStartTime := t;
     hitDuration := hitDuration st; missionCompleted := missionCompleted st;
     completedTones := completedTones st; endlessMode := endlessMode st;
     hitProgress := hitProgress st; timers := timers st |}.

Definition set_hitDuration (d : Z) (st : Station) : Station :=
  {| audioContext := audioContext st; isRecording := isRecording st;
     sampleRate := sampleRate st; currentToneIndex := currentToneIndex st;
     isHittingTarget := isHittingTarget st; hitStartTime := hitStartTime st;
     hitDuration := d; missionCompleted := missionCompleted st;
     completedTones := completedTones st; endlessMode := endlessMode st;
     hitProgress := hitProgress st; timers := timers st |}.

Definition set_missionCompleted (b : bool) (st : Station) : Station :=
  {| audioContext := audioContext st; isRecording := isRecording st;
     sampleRate := sampleRate st; currentToneIndex := currentToneIndex st;
     isHittingTarget := isHittingTarget st; hitStartTime := hitStartTime st;
     hitDuration := hitDuration st; missionCompleted := b;
     completedTones := completedTones st; endlessMode := endlessMode st;
     hitProgress := hitProgress st; timers := timers st |}.

Definition set_completedTones (n : nat) (st : Station) : Station :=
  {| audioContext := audioContext st; isRecording := isRecording st;
     sampleRate := sampleRate st; currentToneIndex := currentToneIndex st;
     isHittingTarget := isHittingTarget st; hitStartTime := hitStartTime st;
     hitDuration := hitDuration st; missionCompleted := missionCompleted st;
     completedTones := n; endlessMode := endlessMode st;
     hitProgress := hitProgress st; timers := timers st |}.

Definition set_endlessMode (b : bool) (st : Station) : Station :=
  {| audioContext := audioContext st; isRecording := isRecording st;
     sampleRate := sampleRate st; currentToneIndex := currentToneIndex st;
     isHittingTarget := isHittingTarget st; hitStartTime := hitStartTime st;
     hitDuration := hitDuration st; missionCompleted := missionCompleted st;
     completedTones := completedTones st; endlessMode := b;
     hitProgress := hitProgress st; timers := timers st |}.

Definition set_timers (ts : list timer) (st : Station) : Station :=
  {| audioContext := audioContext st; isRecording := isRecording st;
     sampleRate := sampleRate st; currentToneIndex := currentToneIndex st;
     isHittingTarget := isHittingTarget st; hitStartTime := hitStartTime st;
     hitDuration := hitDuration st; missionCompleted := missionCompleted st;
     completedTones := completedTones st; endlessMode := endlessMode st;
     hitProgress := hitProgress st; timers := ts |}.

(** [updateHitProgress(progress)]: the ratio reaches the presentation layer,
    which turns it into the opacity of the target line. *)
Definition updateHitProgress (progress : Q) (st : Station) : Station :=
  {| audioContext := audioContext st; isRecording := isRecording st;
     sampleRate := sampleRate st; currentToneIndex := currentToneIndex st;
     isHittingTarget := isHittingTarget st; hitStartTime := hitStartTime st;
     hitDuration := hitDuration st; missionCompleted := missionCompleted st;
     completedTones := completedTones st; endlessMode := endlessMode st;
     hitProgress := Some progress; timers := timers st |}.

(** [const intensity = 0.8 + (progress * 0.4)]. *)
Definition intensity (progress : Q) : Q := ((8 # 10) + progress * (4 # 10))%Q.

(** [setTimeout(callback, delay)]. *)
Definition setTimeout (c : callback) (delay : Z) (st : Station) : Station :=
  set_timers (timers st ++ [ {| timer_callback := c; timer_delay := delay |} ])
    st.

(** ** Methods *)

Definition resetMissionState (st : Station) : Station :=
  updateHitProgress 0
    (set_hitStartTime 0 (set_hitDuration 0 (set_isHittingTarget false st))).

Definition stopRecording (st : Station) : Station :=
  let st1 := set_recording None false st in
  if negb (missionCompleted st1) && negb (endlessMode st1)
  then resetMissionState st1
  else st1.

(** [startRecording] once [getUserMedia] has settled: [mic] is the sample
    rate of the audio context when access was granted, [None] when it was
    refused (the [catch] branch only reports the error). *)
Definition startRecording (mic : option Q) (st : Station) : Station :=
  match mic with
  | Some rate =>
      set_recording (Some {| ctx_sampleRate := rate |}) true
        (set_sampleRate (Some rate) st)
  | None => st
  end.

Definition toggleRecording (mic : option Q) (st : Station) : Station :=
  if negb (isRecording st) then startRecording mic st else stopRecording st.

(** [checkTargetHit(frequency)]; [None] is the TypeError raised by reading
    [.frequency] of [undefined] when the index is past the last tone. *)
Definition checkTargetHit (st : Station) (f : Q) : option bool :=
  if endlessMode st then Some true
  else
    match nth_error targetTones (currentToneIndex st) with
    | Some currentTarget =>
        Some (Qle_bool (Qabs (f - frequency currentTarget)) tolerance)
    | None => None
    end.

Definition getCurrentTarget (st : Station) : option TargetTone :=
  nth_error targetTones (currentToneIndex st).

Definition completeMission (st : Station) : Station :=
  if missionCompleted st then st
  else
    let st1 :=
      set_completedTones (S (completedTones st))
        (set_missionCompleted true st) in
    if (length targetTones <=? completedTones st1)%nat
    then setTimeout EnterEndlessMode 3000 st1
    else setTimeout NextMission 3000 st1.

(** [handleTargetHit(isHitting)] with [now] the value of [Date.now()]. *)
Definition handleTargetHit (isHitting : bool) (now : Z) (st : Station)
  : Station :=
  if endlessMode st then st
  else if isHitting && negb (missionCompleted st) then
    let st1 :=
      if negb (isHittingTarget st)
      then set_hitStartTime now (set_isHittingTarget true st)
      else st in
    let st2 := set_hitDuration (now - hitStartTime st1) st1 in
    let st3 :=
      updateHitProgress
        (inject_Z (hitDuration st2) / inject_Z requiredHitDuration) st2 in
    if requiredHitDuration <=? hitDuration st3
    then completeMission st3
    else st3
  else if isHittingTarget st then
    updateHitProgress 0 (set_hitDuration 0 (set_isHittingTarget false st))
  else st.

(** The body of [detectTone] once the dominant frequency is known (the
    operation the specification calls ingestSample). *)
Definition ingestSample (dominantFrequency : Q) (now : Z) (st : Station)
  : option Station :=
  if negb (Qle_bool dominantFrequency 0) then
    if negb (endlessMode st) then
      match checkTargetHit st dominantFrequency with
      | Some isHitting => Some (handleTargetHit isHitting now st)
      | None => None
      end
    else Some st
  else Some st.

(** [this.sampleRate] as a number: [null] counts as 0 in arithmetic. *)
Definition sampleRateNumber (st : Station) : Q :=
  match sampleRate st with
  | Some r => r
  | None => 0%Q
  end.

Definition detectTone (frequencyBins : list dB) (now : Z) (st : Station)
  : option Station :=
  ingestSample (findDominantFrequency frequencyBins (sampleRateNumber st))
    now st.

Definition resetMission (st : Station) : Station :=
  updateHitProgress 0
    (set_hitStartTime 0
       (set_hitDuration 0
          (set_isHittingTarget false (set_missionCompleted false st)))).

Definition nextMission (st : Station) : Station :=
  resetMission (set_currentToneIndex (S (currentToneIndex st)) st).

Definition enterEndlessMode (st : Station) : Station :=
  set_hitStartTime 0
    (set_hitDuration 0
       (set_isHittingTarget false
          (set_missionCompleted false (set_endlessMode true st)))).

Definition runCallback (c : callback) (st : Station) : Station :=
  match c with
  | NextMission => nextMission st
  | EnterEndlessMode => enterEndlessMode st
  end.

(** ** The event loop *)

(** One pass of [visualizationLoop] over a spectrum whose dominant frequency
    is [dominantFrequency]: nothing happens unless recording; an exception of
    [detectTone] is caught and leaves the object as it was. *)
Definition frame (dominantFrequency : Q) (now : Z) (st : Station) : Station :=
  if isRecording st then
    match ingestSample dominantFrequency now st with
    | Some st' => st'
    | None => st
    end
  else st.

Definition visualizationLoop (frequencyBins : list dB) (now : Z)
  (st : Station) : Station :=
  frame (findDominantFrequency frequencyBins (sampleRateNumber st)) now st.

(** What can happen to the station: an analysis frame, the oldest pending
    timer running, or a click on the start/stop button. *)
Inductive event : Type :=
| Sample (dominantFrequency : Q) (now : Z)
| Timeout
| Click (mic : option Q).

Definition step (e : event) (st : Station) : Station :=
  match e with
  | Sample f now => frame f now st
  | Timeout =>
      match timers st with
      | [] => st
      | t :: rest => runCallback (timer_callback t) (set_timers rest st)
      end
  | Click mic => toggleRecording mic st
  end.

Definition run (es : list event) (st : Station) : Station :=
  fold_left (fun s e => step e s) es st.

Inductive reachable : Station -> Prop :=
| reachable_init : reachable initialStation
| reachable_step : forall e st, reachable st -> reachable (step e st).

(** ** The mission state of the specification, read off the flags *)

Inductive MissionState : Type :=
| Idle
| HittingTarget
| Completed
| EndlessMode.

Definition missionState (st : Station) : MissionState :=
  if endlessMode st then EndlessMode
  else if missionCompleted st then Completed
  else if isHittingTarget st then HittingTarget
  else Idle.

(** The timestamp of the first sample of a trace on which [completeMission]
    raises [completedTones]. *)
Fixpoint completionTime (es : list event) (st : Station) : option Z :=
  match es with
  | [] => None
  | e :: es' =>
      let st' := step e st in
      match e with
      | Sample _ now =>
          if (completedTones st <? completedTones st')%nat
          then Some now
          else completionTime es' st'
      | _ => completionTime es' st'
      end
  end.

(** The events of a trace that happen no later than [t]; a timer or a click
    carries no timestamp and is kept. *)
Definition upTo (t : Z) (es : list event) : list event :=
  filter (fun e => match e with Sample _ now => now <=? t | _ => true end) es.

(** The number of steps of a trace on which [completedTones] goes up. *)
Fixpoint completions (es : list event) (st : Station) : nat :=
  match es with
  | [] => O
  | e :: es' =>
      let st' := step e st in
      ((if (completedTones st <? completedTones st')%nat then 1 else 0)
       + completions es' st')%nat
  end.

(** The part of the object that carries the mission, as opposed to the
    recording fields [audioContext], [isRecording] and [sampleRate]. *)
Definition missionFields (st : Station) :=
  (currentToneIndex st, isHittingTarget st, hitStartTime st, hitDuration st,
   missionCompleted st, completedTones st, endlessMode st, hitProgress st,
   timers st).

(** A sample counts as on target for [tgt]. *)
Definition withinTolerance (tgt : TargetTone) (f : Q) : Prop :=
  (Qabs (f - frequency tgt) <= tolerance)%Q.

(** ** Concrete traces *)

(** The sample rate of the usual audio context and an analyser spectrum of
    [fftSize / 2 = 2048] bins without any energy. *)
Definition cdRate : Q := 44100 # 1.
Definition silence : list dB := repeat NegInf 2048.

(** A spectrum with one peak of -30 dB in bin 24 (about 258 Hz at 44100 Hz)
    over a floor of -100 dB. *)
Definition toneNearC : list dB :=
  (repeat (Fin (-100)) 24 ++ [Fin (-30)] ++ repeat (Fin (-100)) 2023)%list.

(** The station after the start button was pressed and access granted. *)
Definition recordingStation : Station :=
  step (Click (Some cdRate)) initialStation.

(** Half a second into holding the first target (C, 261.63 Hz). *)
Definition holdingStation : Station :=
  run [Sample (260 # 1) 0; Sample (260 # 1) 500] recordingStation.

(** The first two missions done, so that the current target is A (440 Hz);
    the clock is set so that the third mission can start at 0. *)
Definition traceToA : list event :=
  [ Click (Some cdRate);
    Sample (26163 # 100) (-9000); Sample (26163 # 100) (-7500); Timeout;
    Sample (36999 # 100) (-4000); Sample (36999 # 100) (-2500); Timeout ].

Definition stationA : Station := run traceToA initialStation.

(** Scenario A of the specification: 435 Hz at 0 ms and at 1600 ms. *)
Definition scenarioA : list event :=
  [ Sample (435 # 1) 0; Sample (435 # 1) 1600 ].

(** All three missions done and the last timer run. *)
Definition endlessStation : Station :=
  run (scenarioA ++ [Timeout]) stationA.

(** ** Consistency of the flags, counters and timers *)

(** The timer a completed mission waits for. *)
Definition pendingTimer (st : Station) : list timer :=
  if missionCompleted st then
    [ {| timer_callback :=
           if (List.length targetTones <=? completedTones st)%nat
           then EnterEndlessMode else NextMission;
         timer_delay := 3000 |} ]
  else [].

(** What holds of every station the event loop can produce: no hold duration
    without the hold flag; in endless mode all tones are done and nothing is
    pending; otherwise the index is that of a tone, the count of completed
    tones is the index (plus one while the completed mission waits for its
    timer) and that timer is the only pending one. *)
Definition consistent (st : Station) : Prop :=
  (isHittingTarget st = false -> hitDuration st = 0)
  /\ if endlessMode st
     then completedTones st = List.length targetTones
          /\ missionCompleted st = false
          /\ isHittingTarget st = false
          /\ timers st = []
     else (currentToneIndex st < List.length targetTones)%nat
          /\ completedTones st
             = (currentToneIndex st
                + (if missionCompleted st then 1 else 0))%nat
          /\ timers st = pendingTimer st.

(** ** Streams of samples *)

(** A list of (frequency, timestamp) pairs as a trace of frames. *)
Definition samples (l : list (Q * Z)) : list event :=
  map (fun s => Sample (fst s) (snd s)) l.

(** A sample with signal that is within the tolerance of [tgt]. *)
Definition onTarget (tgt : TargetTone) (s : Q * Z) : Prop :=
  (0 < fst s)%Q /\ withinTolerance tgt (fst s).

(** The station is recording and holds target [tgt] since [t0]. *)
Definition holdingSince (tgt : TargetTone) (t0 : Z) (st : Station) : Prop :=
  isRecording st = true
  /\ endlessMode st = false
  /\ missionCompleted st = false
  /\ isHittingTarget st = true
  /\ hitStartTime st = t0
  /\ getCurrentTarget st = Some tgt.

(** The station as [handleTargetHit] leaves it on a hit at [now] before it
    looks at the hold duration. *)
Definition hitAt (now : Z) (st : Station) : Station :=
  let start := if isHittingTarget st then hitStartTime st else now in
  updateHitProgress
    (inject_Z (now - start) / inject_Z requiredHitDuration)
    (set_hitDuration (now - start)
       (set_hitStartTime start (set_isHittingTarget true st))).

(** ** Clocks and the exposed progress *)

(** The timestamps of the samples of a trace never go down, starting from
    [t]. *)
Fixpoint nondecreasing (t : Z) (es : list event) : Prop :=
  match es with
  | [] => True
  | Sample _ now :: es' => t <= now /\ nondecreasing now es'
  | _ :: es' => nondecreasing t es'
  end.

(** The ratio [hitDuration / requiredHitDuration] that [handleTargetHit]
    hands to [updateHitProgress]. *)
Definition holdRatio (st : Station) : Q :=
  inject_Z (hitDuration st) / inject_Z requiredHitDuration.

(** Outside endless mode and with the clock at [t]: without the hold flag
    there is no hold duration and the exposed progress, if any, is 0; with it
    the hold started in the past, its ratio is the exposed progress, and it
    is short of the required duration unless the mission is completed. *)
Definition progressOk (t : Z) (st : Station) : Prop :=
  endlessMode st = false ->
  (isHittingTarget st = false ->
   hitDuration st = 0
   /\ (hitProgress st = None \/ hitProgress st = Some 0%Q))
  /\ (isHittingTarget st = true ->
      hitStartTime st + hitDuration st <= t
      /\ 0 <= hitDuration st
      /\ hitProgress st = Some (holdRatio st)
      /\ (missionCompleted st = false ->
          hitDuration st < requiredHitDuration)).

(** A completed first mission whose last two samples were 1600 ms apart. *)
Definition overshootStation : Station :=
  run [Sample (260 # 1) 0; Sample (260 # 1) 1600] recordingStation.

(** ** The search range of the peak picker *)

(** Bin [j] is visited by the loop of [findDominantFrequency]. *)
Definition searchRange (len : nat) (sampleRate : Q) (j : nat) : Prop :=
  (startIndex len sampleRate <= j < stopIndex len sampleRate)%nat.

(** The peak of the search range is at or below the energy floor: no bin of
    the range lies above it. *)
Definition belowFloor (frequencyBins : list dB) (sampleRate : Q) : Prop :=
  forall j,
    searchRange (List.length frequencyBins) sampleRate j ->
    dB_le (nth j frequencyBins NegInf) energyFloor.

(** Bin [i] is the first bin of the search range that holds its maximum. *)
Definition firstPeak (frequencyBins : list dB) (sampleRate : Q) (i : nat)
  : Prop :=
  searchRange (List.length frequencyBins) sampleRate i
  /\ (forall j,
         searchRange (List.length frequencyBins) sampleRate j ->
         dB_le (nth j frequencyBins NegInf) (nth i frequencyBins NegInf))
  /\ (forall j,
         searchRange (List.length frequencyBins) sampleRate j ->
         (j < i)%nat ->
         dB_gt (nth i frequencyBins NegInf) (nth j frequencyBins NegInf)
         = true).

(** * The other two stations

    The same file holds [class MemoryGame]; the barcode station
    [class EVASimulator] is a file of its own.  Both carry a copy of one
    "timer system": a working countdown that opens a modal, and a modal
    countdown that ends in the request to change the station. *)

(** ** The timer system of [MemoryGame] and [EVASimulator]

    [startWorkingTimer], [showModal], [startModalTimer] and
    [showStationChangeMessage] are the same code in both classes (the barcode
    station also sets its [timerStarted] flag in [startWorkingTimer], which is
    done in its own record below).  [setInterval] registers a callback under
    a fresh id; [clearInterval] removes the registration with the given id.
    Of the DOM only the three visibility effects are kept. *)
Module TimerSystem.

Inductive IntervalKind : Type :=
| WorkingInterval
| ModalInterval.

Record Timers : Type := {
  workingTime : Z;
  modalTime : Z;
  workingTimer : option nat;
  modalTimer : option nat;
  (* registrations made with setInterval and not cleared *)
  intervals : list (nat * IntervalKind);
  nextIntervalId : nat;
  timerDisplay : bool;
  modalOverlay : bool;
  stationChangeMessage : bool
}.

(** The fields as both constructors set them. *)
Definition initialTimers : Timers := {|
  workingTime := 180;
  modalTime := 180;
  workingTimer := None;
  modalTimer := None;
  intervals := [];
  nextIntervalId := 1;
  timerDisplay := false;
  modalOverlay := false;
  stationChangeMessage := false
|}.

(** [clearInterval(id)]; clearing [null] or an id that is not registered
    does nothing. *)
Definition clearInterval (id : option nat) (ts : Timers) : Timers :=
  match id with
  | None => ts
  | Some n =>
      {| workingTime := workingTime ts; modalTime := modalTime ts;
         workingTimer := workingTimer ts; modalTimer := modalTimer ts;
         intervals :=
           filter (fun r => negb (Nat.eqb (fst r) n)) (intervals ts);
         nextIntervalId := nextIntervalId ts;
         timerDisplay := timerDisplay ts; modalOverlay := modalOverlay ts;
         stationChangeMessage := stationChangeMessage ts |}
  end.

Definition showStationChangeMessage (ts : Timers) : Timers :=
  {| workingTime := workingTime ts; modalTime := modalTime ts;
     workingTimer := workingTimer ts; modalTimer := modalTimer ts;
     intervals := intervals ts; nextIntervalId := nextIntervalId ts;
     timerDisplay := timerDisplay ts; modalOverlay := modalOverlay ts;
     stationChangeMessage := true |}.

(** [this.modalTimer = setInterval(..., 1000)]. *)
Definition startModalTimer (ts : Timers) : Timers :=
  {| workingTime := workingTime ts; modalTime := modalTime ts;
     workingTimer := workingTimer ts;
     modalTimer := Some (nextIntervalId ts);
     intervals := intervals ts ++ [(nextIntervalId ts, ModalInterval)];
     nextIntervalId := S (nextIntervalId ts);
     timerDisplay := timerDisplay ts; modalOverlay := modalOverlay ts;
     stationChangeMessage := stationChangeMessage ts |}.

Definition showModal (ts : Timers) : Timers :=
  startModalTimer
    {| workingTime := workingTime ts; modalTime := modalTime ts;
       workingTimer := workingTimer ts; modalTimer := modalTimer ts;
       intervals := intervals ts; nextIntervalId := nextIntervalId ts;
       timerDisplay := timerDisplay ts; modalOverlay := true;
       stationChangeMessage := stationChangeMessage ts |}.

(** [this.workingTimer = setInterval(..., 1000)] after the display is
    shown. *)
Definition startWorkingTimer (ts : Timers) : Timers :=
  {| workingTime := workingTime ts; modalTime := modalTime ts;
     workingTimer := Some (nextIntervalId ts);
     modalTimer := modalTimer ts;
     intervals := intervals ts ++ [(nextIntervalId ts, WorkingInterval)];
     nextIntervalId := S (nextIntervalId ts);
     timerDisplay := true; modalOverlay := modalOverlay ts;
     stationChangeMessage := stationChangeMessage ts |}.

(** The callback of the working interval. *)
Definition workingTick (ts : Timers) : Timers :=
  let ts1 :=
    {| workingTime := workingTime ts - 1; modalTime := modalTime ts;
       workingTimer := workingTimer ts; modalTimer := modalTimer ts;
       intervals := intervals ts; nextIntervalId := nextIntervalId ts;
       timerDisplay := timerDisplay ts; modalOverlay := modalOverlay ts;
       stationChangeMessage := stationChangeMessage ts |} in
  if workingTime ts1 <=? 0
  then showModal (clearInterval (workingTimer ts1) ts1)
  else ts1.

(** The callback of a modal interval. *)
Definition modalTick (ts : Timers) : Timers :=
  let ts1 :=
    {| workingTime := workingTime ts; modalTime := modalTime ts - 1;
       workingTimer := workingTimer ts; modalTimer := modalTimer ts;
       intervals := intervals ts; nextIntervalId := nextIntervalId ts;
       timerDisplay := timerDisplay ts; modalOverlay := modalOverlay ts;
       stationChangeMessage := stationChangeMessage ts |} in
  if modalTime ts1 <=? 0
  then showStationChangeMessage (clearInterval (modalTimer ts1) ts1)
  else ts1.

(** The kind of the interval registered under [id], if any. *)
Definition registered (id : nat) (ts : Timers) : option IntervalKind :=
  option_map snd (find (fun r => Nat.eqb (fst r) id) (intervals ts)).

(** The interval with the given id comes due. *)
Definition intervalFires (id : nat) (ts : Timers) : Timers :=
  match registered id ts with
  | Some WorkingInterval => workingTick ts
  | Some ModalInterval => modalTick ts
  | None => ts
  end.

(** [n] times in a row. *)
Fixpoint fires (n : nat) (id : nat) (ts : Timers) : Timers :=
  match n with
  | O => ts
  | S n' => fires n' id (intervalFires id ts)
  end.

End TimerSystem.

(** ** The barcode station, [class EVASimulator] *)
Module EVASimulator.

Record NoteData : Type := {
  note : string;
  frequency : Q
}.

(** The own properties of [this.validCodes]. *)
Definition validCodes : list (string * NoteData) :=
  [ ("+12345", {| note := "G"; frequency := 39200 # 100 |});
    ("+67890", {| note := "A"; frequency := 44000 # 100 |});
    ("+ABCDE", {| note := "B"; frequency := 49388 # 100 |});
    ("+HELLO", {| note := "D"; frequency := 58733 # 100 |});
    ("+WORLD", {| note := "E"; frequency := 65925 # 100 |}) ]%string.

(** [validCodes] is an object literal, so that a lookup that finds no own
    property goes on to [Object.prototype]; these are its property names. *)
Definition objectPrototypeKeys : list string :=
  [ "constructor"; "hasOwnProperty"; "isPrototypeOf";
    "propertyIsEnumerable"; "toLocaleString"; "toString"; "valueOf";
    "__defineGetter__"; "__defineSetter__"; "__lookupGetter__";
    "__lookupSetter__"; "__proto__" ]%string.

(** What [this.validCodes[code]] evaluates to. *)
Inductive Lookup : Type :=
| Own (noteData : NoteData)
| Inherited
| Undefined.

Definition lookupCode (code : string) : Lookup :=
  match find (fun kv => String.eqb (fst kv) code) validCodes with
  | Some kv => Own (snd kv)
  | None =>
      if existsb (String.eqb code) objectPrototypeKeys
      then Inherited
      else Undefined
  end.

(** The [type] argument of [showScannerStatus]. *)
Inductive StatusType : Type :=
| StatusError
| StatusSuccess.

Record Simulator : Type := {
  (* the Web Audio context, when the browser has one *)
  audioContext : bool;
  timerStarted : bool;
  firstCodeScanned : bool;
  timers : TimerSystem.Timers;
  (* the variables of the closure of setupBarcodeListener *)
  barcodeBuffer : string;
  lastKeyTime : Z;
  (* the text of #scannedCode and of #scannerStatus, once set *)
  scannedCode : option string;
  scannerStatus : option (string * StatusType);
  (* the frequencies of the oscillators started so far *)
  tones : list Q
}.

(** The station after its constructor, which ran at [now]. *)
Definition newSimulator (audio : bool) (now : Z) : Simulator := {|
  audioContext := audio;
  timerStarted := false;
  firstCodeScanned := false;
  timers := TimerSystem.initialTimers;
  barcodeBuffer := "";
  lastKeyTime := now;
  scannedCode := None;
  scannerStatus := None;
  tones := []
|}.

Definition showScannerStatus (message : string) (type : StatusType)
  (s : Simulator) : Simulator :=
  {| audioContext := audioContext s; timerStarted := timerStarted s;
     firstCodeScanned := firstCodeScanned s; timers := timers s;
     barcodeBuffer := barcodeBuffer s; lastKeyTime := lastKeyTime s;
     scannedCode := scannedCode s;
     scannerStatus := Some (message, type);
     tones := tones s |}.

(** [startWorkingTimer] of this class: the shared code and the flag. *)
Definition startWorkingTimer (s : Simulator) : Simulator :=
  {| audioContext := audioContext s; timerStarted := true;
     firstCodeScanned := firstCodeScanned s;
     timers := TimerSystem.startWorkingTimer (timers s);
     barcodeBuffer := barcodeBuffer s; lastKeyTime := lastKeyTime s;
     scannedCode := scannedCode s; scannerStatus := scannerStatus s;
     tones := tones s |}.

(** [playPentatonicNote(noteData)]: without an audio context nothing
    happens; a value without a numeric [frequency] makes [setValueAtTime]
    raise before the oscillator is started, which the [catch] swallows.
    The [await]s of this method and of [processBarcodeInput] are run through
    at once: what follows them touches the audio graph and the mascot only,
    no field of the station, so that [tones] lists the oscillators in the
    order of the scans that start them. *)
Definition playPentatonicNote (noteData : Lookup) (s : Simulator)
  : Simulator :=
  if audioContext s then
    match noteData with
    | Own n =>
        {| audioContext := audioContext s; timerStarted := timerStarted s;
           firstCodeScanned := firstCodeScanned s; timers := timers s;
           barcodeBuffer := barcodeBuffer s; lastKeyTime := lastKeyTime s;
           scannedCode := scannedCode s; scannerStatus := scannerStatus s;
           tones := tones s ++ [frequency n] |}
    | _ => s
    end
  else s.

Definition processBarcodeInput (code : string) (s : Simulator)
  : Simulator :=
  match lookupCode code with
  | Undefined =>
      showScannerStatus ("Unbekannt: " ++ code) StatusError s
  | found =>
      let s1 :=
        showScannerStatus "Erkannt!" StatusSuccess
          {| audioContext := audioContext s; timerStarted := timerStarted s;
             firstCodeScanned := firstCodeScanned s; timers := timers s;
             barcodeBuffer := barcodeBuffer s; lastKeyTime := lastKeyTime s;
             scannedCode := Some code; scannerStatus := scannerStatus s;
             tones := tones s |} in
      let s2 :=
        if negb (firstCodeScanned s1) then
          startWorkingTimer
            {| audioContext := audioContext s1;
               timerStarted := timerStarted s1;
               firstCodeScanned := true; timers := timers s1;
               barcodeBuffer := barcodeBuffer s1;
               lastKeyTime := lastKeyTime s1;
               scannedCode := scannedCode s1;
               scannerStatus := scannerStatus s1;
               tones := tones s1 |}
        else s1 in
      playPentatonicNote found s2
  end.

Definition setBuffer (buffer : string) (lastKey : Z) (s : Simulator)
  : Simulator :=
  {| audioContext := audioContext s; timerStarted := timerStarted s;
     firstCodeScanned := firstCodeScanned s; timers := timers s;
     barcodeBuffer := buffer; lastKeyTime := lastKey;
     scannedCode := scannedCode s; scannerStatus := scannerStatus s;
     tones := tones s |}.

(** The [keypress] listener of [setupBarcodeListener] for the key [key]
    pressed at [currentTime]. *)
Definition keypress (key : string) (currentTime : Z) (s : Simulator)
  : Simulator :=
  let buffer :=
    if 100 <? currentTime - lastKeyTime s then ""%string
    else barcodeBuffer s in
  if String.eqb key "Enter"
  then setBuffer "" currentTime (processBarcodeInput buffer s)
  else setBuffer (buffer ++ key) currentTime s.

(** A burst of key presses, oldest first. *)
Definition typed (keys : list (string * Z)) (s : Simulator) : Simulator :=
  fold_left (fun s k => keypress (fst k) (snd k) s) keys s.

(** The keys of a burst, one after the other. *)
Fixpoint joined (keys : list (string * Z)) : string :=
  match keys with
  | [] => ""
  | k :: keys' => fst k ++ joined keys'
  end.

(** The gaps between the presses of a burst that follows a press at
    [last] are at most 100 ms. *)
Fixpoint withinGap (last : Z) (keys : list (string * Z)) : Prop :=
  match keys with
  | [] => True
  | k :: keys' => snd k - last <= 100 /\ withinGap (snd k) keys'
  end.

(** What happens to the station. *)
Inductive event : Type :=
| KeyPress (key : string) (currentTime : Z)
| IntervalDue (id : nat).

Definition step (e : event) (s : Simulator) : Simulator :=
  match e with
  | KeyPress key currentTime => keypress key currentTime s
  | IntervalDue id =>
      {| audioContext := audioContext s; timerStarted := timerStarted s;
         firstCodeScanned := firstCodeScanned s;
         timers := TimerSystem.intervalFires id (timers s);
         barcodeBuffer := barcodeBuffer s; lastKeyTime := lastKeyTime s;
         scannedCode := scannedCode s; scannerStatus := scannerStatus s;
         tones := tones s |}
  end.

Definition run (es : list event) (s : Simulator) : Simulator :=
  fold_left (fun s e => step e s) es s.

Inductive reachable : Simulator -> Prop :=
| reachable_new : forall audio now, reachable (newSimulator audio now)
| reachable_step : forall e s, reachable s -> reachable (step e s).


End EVASimulator.

(** ** The memory game, [class MemoryGame] *)
Module MemoryGame.

Definition cardSymbols : list string :=
  [ "🎵"; "🎨"; "🎮"; "⚽"; "🌟"; "🎭"; "🎪"; "🎸"; "🎯"; "🎲"; "🎰";
    "🎳" ]%string.

Definition jokerSymbol : string := "⭐".

(** *** Shuffling *)

(** [l] with [x] at index [i]; an index past the end changes nothing. *)
Fixpoint assign {A : Type} (i : nat) (x : A) (l : list A) : list A :=
  match l, i with
  | [], _ => []
  | _ :: l', O => x :: l'
  | y :: l', S i' => y :: assign i' x l'
  end.

(** [[a[i], a[j]] = [a[j], a[i]]] for two indices of the array, which is
    what the shuffle uses it for. *)
Definition swap {A : Type} (i j : nat) (a : list A) : list A :=
  match nth_error a i, nth_error a j with
  | Some x, Some y => assign j x (assign i y a)
  | _, _ => a
  end.

(** [Math.floor(random * (i + 1))]. *)
Definition pick (random : Q) (i : nat) : nat :=
  Z.to_nat (Qfloor (random * inject_Z (Z.of_nat i + 1))).

(** The loop of [shuffleArray] from index [i] down to 1; [random k] is the
    value of the [k]-th call of [Math.random()], [calls] the number of calls
    made so far. *)
Fixpoint shuffleFrom {A : Type} (random : nat -> Q) (calls : nat) (i : nat)
  (shuffled : list A) : list A :=
  match i with
  | O => shuffled
  | S i' =>
      shuffleFrom random (S calls) i'
        (swap i (pick (random calls) i) shuffled)
  end.

Definition shuffleArray {A : Type} (random : nat -> Q) (array : list A)
  : list A :=
  shuffleFrom random 0 (List.length array - 1) array.

(** [Math.random()] returns a number from 0 up to but not including 1. *)
Definition fair (random : nat -> Q) : Prop :=
  forall k, (0 <= random k)%Q /\ (random k < 1)%Q.

(** *** The board *)

(** A [.memory-card] element: its [dataset.symbol] and the classes the game
    puts on it. *)
Record Card : Type := {
  symbol : string;
  flipped : bool;
  matched : bool;
  wrong : bool;
  selected : bool
}.

Record Position : Type := {
  row : Z;
  col : Z
}.

(** What [confirmSelection] is waiting for in a [sleep] while
    [isProcessing] is set; the cards are named by their [data-index]. *)
Inductive Sleeping : Type :=
| InHandleMatch (card1 card2 : nat)
| InHandleMismatch (card1 card2 : nat)
| InHandleGameWon.

Record Game : Type := {
  currentPosition : Position;
  (* the children of #memoryGrid, in the order of data-index *)
  grid : list Card;
  flippedCards : list nat;
  matchedPairs : nat;
  totalPairs : nat;
  isProcessing : bool;
  timerStarted : bool;
  timers : TimerSystem.Timers;
  sleeping : option Sleeping
}.

Definition newCard (s : string) : Card :=
  {| symbol := s; flipped := false; matched := false; wrong := false;
     selected := false |}.

Definition setGrid (g' : list Card) (g : Game) : Game :=
  {| currentPosition := currentPosition g; grid := g';
     flippedCards := flippedCards g; matchedPairs := matchedPairs g;
     totalPairs := totalPairs g; isProcessing := isProcessing g;
     timerStarted := timerStarted g; timers := timers g;
     sleeping := sleeping g |}.

Definition setTimers (ts : TimerSystem.Timers) (g : Game) : Game :=
  {| currentPosition := currentPosition g; grid := grid g;
     flippedCards := flippedCards g; matchedPairs := matchedPairs g;
     totalPairs := totalPairs g; isProcessing := isProcessing g;
     timerStarted := timerStarted g; timers := ts;
     sleeping := sleeping g |}.

Definition setSleeping (w : option Sleeping) (g : Game) : Game :=
  {| currentPosition := currentPosition g; grid := grid g;
     flippedCards := flippedCards g; matchedPairs := matchedPairs g;
     totalPairs := totalPairs g; isProcessing := isProcessing g;
     timerStarted := timerStarted g; timers := timers g;
     sleeping := w |}.

(** The card with [data-index] [i], as [querySelector] finds it. *)
Definition cardAt (i : Z) (cards : list Card) : option Card :=
  if i <? 0 then None else nth_error cards (Z.to_nat i).

(** [f] applied to the card with index [i]. *)
Fixpoint onCard (i : nat) (f : Card -> Card) (cards : list Card)
  : list Card :=
  match cards, i with
  | [], _ => []
  | c :: cards', O => f c :: cards'
  | c :: cards', S i' => c :: onCard i' f cards'
  end.

Definition setSelected (b : bool) (c : Card) : Card :=
  {| symbol := symbol c; flipped := flipped c; matched := matched c;
     wrong := wrong c; selected := b |}.

Definition setFlipped (b : bool) (c : Card) : Card :=
  {| symbol := symbol c; flipped := b; matched := matched c;
     wrong := wrong c; selected := selected c |}.

Definition setWrong (b : bool) (c : Card) : Card :=
  {| symbol := symbol c; flipped := flipped c; matched := matched c;
     wrong := b; selected := selected c |}.

Definition setMatched (b : bool) (c : Card) : Card :=
  {| symbol := symbol c; flipped := flipped c; matched := b;
     wrong := wrong c; selected := selected c |}.

Definition currentIndex (g : Game) : Z :=
  row (currentPosition g) * 5 + col (currentPosition g).

Definition updateSelectedCard (g : Game) : Game :=
  let cleared := map (setSelected false) (grid g) in
  match cardAt (currentIndex g) cleared with
  | Some currentCard =>
      if negb (matched currentCard)
      then setGrid
             (onCard (Z.to_nat (currentIndex g)) (setSelected true) cleared) g
      else setGrid cleared g
  | None => setGrid cleared g
  end.

Definition moveSelection (rowDelta colDelta : Z) (g : Game) : Game :=
  let newRow := row (currentPosition g) + rowDelta in
  let newCol := col (currentPosition g) + colDelta in
  if (0 <=? newRow) && (newRow <? 5) && (0 <=? newCol) && (newCol <? 5)
  then
    updateSelectedCard
      {| currentPosition := {| row := newRow; col := newCol |};
         grid := grid g; flippedCards := flippedCards g;
         matchedPairs := matchedPairs g; totalPairs := totalPairs g;
         isProcessing := isProcessing g; timerStarted := timerStarted g;
         timers := timers g; sleeping := sleeping g |}
  else g.

Definition handleKeyPress (key : string) (g : Game) : Game :=
  if isProcessing g then g
  else if String.eqb key "ArrowUp" then moveSelection (-1) 0 g
  else if String.eqb key "ArrowDown" then moveSelection 1 0 g
  else if String.eqb key "ArrowLeft" then moveSelection 0 (-1) g
  else if String.eqb key "ArrowRight" then moveSelection 0 1 g
  else g.

(** The end of [checkMatch], after either handler has returned. *)
Definition finishCheckMatch (g : Game) : Game :=
  updateSelectedCard
    {| currentPosition := currentPosition g; grid := grid g;
       flippedCards := []; matchedPairs := matchedPairs g;
       totalPairs := totalPairs g; isProcessing := false;
       timerStarted := timerStarted g; timers := timers g;
       sleeping := None |}.

(** [checkMatch] up to the [sleep] of the handler it calls. *)
Definition checkMatch (g : Game) : Game :=
  match flippedCards g with
  | i1 :: i2 :: _ =>
      match nth_error (grid g) i1, nth_error (grid g) i2 with
      | Some card1, Some card2 =>
          if String.eqb (symbol card1) jokerSymbol
             || String.eqb (symbol card2) jokerSymbol
             || String.eqb (symbol card1) (symbol card2)
          then setSleeping (Some (InHandleMatch i1 i2)) g
          else
            setSleeping (Some (InHandleMismatch i1 i2))
              (setGrid
                 (onCard i2 (setWrong true)
                    (onCard i1 (setWrong true) (grid g))) g)
      | _, _ => g
      end
  | _ => g
  end.

Definition confirmSelection (g : Game) : Game :=
  if isProcessing g then g
  else
    let g1 :=
      if negb (timerStarted g) then
        {| currentPosition := currentPosition g; grid := grid g;
           flippedCards := flippedCards g; matchedPairs := matchedPairs g;
           totalPairs := totalPairs g; isProcessing := isProcessing g;
           timerStarted := true;
           timers := TimerSystem.startWorkingTimer (timers g);
           sleeping := sleeping g |}
      else g in
    match cardAt (currentIndex g1) (grid g1) with
    | None => g1
    | Some currentCard =>
        if matched currentCard || flipped currentCard then g1
        else
          let g2 :=
            {| currentPosition := currentPosition g1;
               grid :=
                 onCard (Z.to_nat (currentIndex g1)) (setFlipped true)
                   (grid g1);
               flippedCards :=
                 flippedCards g1 ++ [Z.to_nat (currentIndex g1)];
               matchedPairs := matchedPairs g1;
               totalPairs := totalPairs g1;
               isProcessing := isProcessing g1;
               timerStarted := timerStarted g1; timers := timers g1;
               sleeping := sleeping g1 |} in
          if (List.length (flippedCards g2) =? 2)%nat then
            checkMatch
              {| currentPosition := currentPosition g2; grid := grid g2;
                 flippedCards := flippedCards g2;
                 matchedPairs := matchedPairs g2;
                 totalPairs := totalPairs g2; isProcessing := true;
                 timerStarted := timerStarted g2; timers := timers g2;
                 sleeping := sleeping g2 |}
          else g2
    end.

(** The rest of [handleMatch] once its [sleep(500)] is over, up to the
    [sleep] of [handleGameWon] if the game is won. *)
Definition afterMatchSleep (i1 i2 : nat) (g : Game) : Game :=
  let cards :=
    onCard i2 (fun c => setFlipped false (setMatched true c))
      (onCard i1 (fun c => setFlipped false (setMatched true c)) (grid g)) in
  let g1 :=
    {| currentPosition := currentPosition g; grid := cards;
       flippedCards := flippedCards g;
       matchedPairs := S (matchedPairs g);
       totalPairs := totalPairs g; isProcessing := isProcessing g;
       timerStarted := timerStarted g; timers := timers g;
       sleeping := sleeping g |} in
  if (matchedPairs g1 =? totalPairs g1)%nat
  then
    setSleeping (Some InHandleGameWon)
      (setTimers
         (TimerSystem.clearInterval (TimerSystem.workingTimer (timers g1))
            (timers g1)) g1)
  else finishCheckMatch g1.

(** The rest of [handleMismatch] once its [sleep(1000)] is over. *)
Definition afterMismatchSleep (i1 i2 : nat) (g : Game) : Game :=
  finishCheckMatch
    (setGrid
       (onCard i2 (fun c => setWrong false (setFlipped false c))
          (onCard i1 (fun c => setWrong false (setFlipped false c))
             (grid g))) g).

(** The rest of [handleGameWon] once its [sleep(2000)] is over. *)
Definition afterGameWonSleep (g : Game) : Game :=
  finishCheckMatch (setTimers (TimerSystem.showModal (timers g)) g).

(** The pending [sleep] is over. *)
Definition wake (g : Game) : Game :=
  match sleeping g with
  | Some (InHandleMatch i1 i2) => afterMatchSleep i1 i2 g
  | Some (InHandleMismatch i1 i2) => afterMismatchSleep i1 i2 g
  | Some InHandleGameWon => afterGameWonSleep g
  | None => g
  end.

(** [initializeGame] with the cards in the order [cards]. *)
Definition dealt (cards : list string) : Game :=
  updateSelectedCard
    {| currentPosition := {| row := 0; col := 0 |};
       grid := map newCard cards;
       flippedCards := [];
       matchedPairs := 0;
       totalPairs := 12;
       isProcessing := false;
       timerStarted := false;
       timers := TimerSystem.initialTimers;
       sleeping := None |}.

(** The game after its constructor. *)
Definition newGame (random : nat -> Q) : Game :=
  dealt (shuffleArray random (cardSymbols ++ cardSymbols ++ [jokerSymbol])).

(** What happens to the game. *)
Inductive event : Type :=
| KeyDown (key : string)
| ConfirmClick
| SleepOver
| IntervalDue (id : nat).

Definition step (e : event) (g : Game) : Game :=
  match e with
  | KeyDown key => handleKeyPress key g
  | ConfirmClick => confirmSelection g
  | SleepOver => wake g
  | IntervalDue id => setTimers (TimerSystem.intervalFires id (timers g)) g
  end.

Definition run (es : list event) (g : Game) : Game :=
  fold_left (fun g e => step e g) es g.

Inductive reachable : Game -> Prop :=
| reachable_new : forall random, fair random -> reachable (newGame random)
| reachable_step : forall e g, reachable g -> reachable (step e g).

(** The number of cards with the class [matched]. *)
Definition matchedCards (cards : list Card) : nat :=
  List.length (filter matched cards).

(** The cursor is on the 5 x 5 grid. *)
Definition onGrid (p : Position) : Prop :=
  0 <= row p < 5 /\ 0 <= col p < 5.

(** Card [i] lies face up and is not matched. *)
Definition faceUp (g : Game) (i : nat) : Prop :=
  nth_error (map flipped (grid g)) i = Some true
  /\ nth_error (map matched (grid g)) i = Some false.

(** What holds of the game whatever the player does: the cursor is on the
    grid of 25 cards; two cards are matched for every pair counted; while
    nothing is being processed at most one card is face up and waits for its
    partner; while a pair is processed, the two cards are different cards
    that lie face up; while the win is celebrated, they are still listed. *)
Definition consistent (g : Game) : Prop :=
  onGrid (currentPosition g)
  /\ List.length (grid g) = 25%nat
  /\ totalPairs g = 12%nat
  /\ matchedCards (grid g) = (2 * matchedPairs g)%nat
  /\ match sleeping g with
     | None =>
         isProcessing g = false
         /\ (flippedCards g = []
             \/ exists i, flippedCards g = [i] /\ faceUp g i)
     | Some (InHandleMatch i1 i2) | Some (InHandleMismatch i1 i2) =>
         isProcessing g = true
         /\ flippedCards g = [i1; i2]
         /\ i1 <> i2
         /\ faceUp g i1
         /\ faceUp g i2
     | Some InHandleGameWon =>
         isProcessing g = true /\ List.length (flippedCards g) = 2%nat
     end.


(** The board [b] is a later form of the board [a]: the cards carry the
    same symbols, and every card that was matched still is. *)
Definition laterBoard (a b : list Card) : Prop :=
  map symbol b = map symbol a
  /\ forall i,
      nth_error (map matched a) i = Some true ->
      nth_error (map matched b) i = Some true.

End MemoryGame.

(** ** Basic facts *)

(** Case analysis on every test the goal branches on. *)
Ltac split_ifs :=
  repeat match goal with
    | |- context [if ?c then _ else _] => destruct c; cbn
    end.

Lemma Qle_bool_false (x y : Q) : Qle_bool x y = false <-> (y < x)%Q.
Proof.
  split; intro H.
  - apply Qnot_le_lt. intro L. apply Qle_bool_iff in L. congruence.
  - destruct (Qle_bool x y) eqn:E; [|reflexivity].
    apply Qle_bool_iff in E. exfalso. exact (Qlt_not_le _ _ H E).
Qed.

Lemma checkTargetHit_target (st : Station) (tgt : TargetTone) (f : Q) :
  endlessMode st = false ->
  getCurrentTarget st = Some tgt ->
  checkTargetHit st f
  = Some (Qle_bool (Qabs (f - frequency tgt)) tolerance).
Proof.
  unfold checkTargetHit, getCurrentTarget. intros -> ->. reflexivity.
Qed.

Lemma frame_ingest (f : Q) (now : Z) (st st' : Station) :
  isRecording st = true ->
  ingestSample f now st = Some st' ->
  frame f now st = st'.
Proof.
  unfold frame. intros -> ->. reflexivity.
Qed.

Lemma ingest_signal (st : Station) (tgt : TargetTone) (f : Q) (now : Z) :
  endlessMode st = false ->
  getCurrentTarget st = Some tgt ->
  (0 < f)%Q ->
  ingestSample f now st
  = Some (handleTargetHit (Qle_bool (Qabs (f - frequency tgt)) tolerance)
            now st).
Proof.
  intros He Ht Hf. unfold ingestSample.
  apply Qle_bool_false in Hf. rewrite Hf, He. cbn [negb].
  rewrite (checkTargetHit_target st tgt f He Ht). reflexivity.
Qed.

Lemma missionState_Idle (st : Station) :
  missionState st = Idle <->
  endlessMode st = false /\ missionCompleted st = false
  /\ isHittingTarget st = false.
Proof.
  unfold missionState.
  destruct (endlessMode st), (missionCompleted st), (isHittingTarget st);
    intuition congruence.
Qed.

Lemma missionState_HittingTarget (st : Station) :
  missionState st = HittingTarget <->
  endlessMode st = false /\ missionCompleted st = false
  /\ isHittingTarget st = true.
Proof.
  unfold missionState.
  destruct (endlessMode st), (missionCompleted st), (isHittingTarget st);
    intuition congruence.
Qed.

Lemma missionState_Completed (st : Station) :
  missionState st = Completed <->
  endlessMode st = false /\ missionCompleted st = true.
Proof.
  unfold missionState.
  destruct (endlessMode st), (missionCompleted st), (isHittingTarget st);
    intuition congruence.
Qed.

Lemma missionState_EndlessMode (st : Station) :
  missionState st = EndlessMode <-> endlessMode st = true.
Proof.
  unfold missionState.
  destruct (endlessMode st), (missionCompleted st), (isHittingTarget st);
    intuition congruence.
Qed.

(** An off-target (or post-completion) call of [handleTargetHit] while the
    hold flag is up. *)
Lemma handleTargetHit_release (b : bool) (now : Z) (st : Station) :
  endlessMode st = false ->
  b && negb (missionCompleted st) = false ->
  isHittingTarget st = true ->
  handleTargetHit b now st
  = updateHitProgress 0 (set_hitDuration 0 (set_isHittingTarget false st)).
Proof.
  unfold handleTargetHit. intros -> -> ->. reflexivity.
Qed.

Lemma handleTargetHit_idle (b : bool) (now : Z) (st : Station) :
  endlessMode st = false ->
  b && negb (missionCompleted st) = false ->
  isHittingTarget st = false ->
  handleTargetHit b now st = st.
Proof.
  unfold handleTargetHit. intros -> -> ->. reflexivity.
Qed.

(** A hit on a mission that is not completed, at the level of the sample. *)
Lemma ingest_on_target
  (st : Station) (tgt : TargetTone) (f : Q) (now : Z) :
  endlessMode st = false ->
  missionCompleted st = false ->
  getCurrentTarget st = Some tgt ->
  (0 < f)%Q ->
  withinTolerance tgt f ->
  ingestSample f now st
  = Some (if requiredHitDuration <=? hitDuration (hitAt now st)
          then completeMission (hitAt now st)
          else hitAt now st).
Proof.
  intros He Hc Ht Hf Hin.
  rewrite (ingest_signal st tgt f now He Ht Hf).
  apply Qle_bool_iff in Hin. rewrite Hin.
  destruct st as [ctx rec rate idx hit start dur mc ct em prog ts].
  cbn in *. subst. unfold handleTargetHit, hitAt. cbn.
  destruct hit; reflexivity.
Qed.

(** ** The peak picker *)

Lemma dB_le_refl (a : dB) : dB_le a a.
Proof.
  destruct a; cbn; [exact I|apply Qle_refl].
Qed.

Lemma dB_le_trans (a b c : dB) : dB_le a b -> dB_le b c -> dB_le a c.
Proof.
  destruct a, b, c; cbn; try tauto. apply Qle_trans.
Qed.

Lemma dB_gt_false (a b : dB) : dB_gt a b = false <-> dB_le a b.
Proof.
  destruct a as [|x], b as [|y]; cbn; try tauto.
  - split; [discriminate|tauto].
  - rewrite negb_false_iff. apply Qle_bool_iff.
Qed.

Lemma dB_gt_true (a b : dB) : dB_gt a b = true <-> ~ dB_le a b.
Proof.
  rewrite <- dB_gt_false. destruct (dB_gt a b); split; congruence.
Qed.

Lemma dB_gt_le (a b : dB) : dB_gt a b = true -> dB_le b a.
Proof.
  destruct a as [|x], b as [|y]; cbn; try tauto; try discriminate.
  rewrite negb_true_iff, Qle_bool_false. apply Qlt_le_weak.
Qed.

Lemma dB_gt_le_trans (a b c : dB) :
  dB_gt a b = true -> dB_le c b -> dB_gt a c = true.
Proof.
  destruct a as [|x], b as [|y], c as [|z]; cbn; try tauto; try discriminate.
  rewrite !negb_true_iff, !Qle_bool_false. intros H1 H2.
  exact (Qle_lt_trans _ _ _ H2 H1).
Qed.

Lemma scanBins_spec (frequencyBins : list dB) (n : nat) :
  forall i acc,
    let r := scanBins frequencyBins i n acc in
    dB_le (snd acc) (snd r)
    /\ (forall j, (i <= j < i + n)%nat ->
                  dB_le (nth j frequencyBins NegInf) (snd r))
    /\ (r = acc
        \/ ((i <= fst r < i + n)%nat
            /\ snd r = nth (fst r) frequencyBins NegInf
            /\ dB_gt (snd r) (snd acc) = true
            /\ forall j, (i <= j < fst r)%nat ->
                         dB_gt (snd r) (nth j frequencyBins NegInf) = true)).
Proof.
  induction n as [|n IH]; intros i acc; cbn zeta.
  - cbn. split; [apply dB_le_refl|]. split; [intros j Hj; lia|auto].
  - cbn [scanBins].
    set (v := nth i frequencyBins NegInf).
    set (acc' := if dB_gt v (snd acc) then (i, v) else acc).
    destruct (IH (S i) acc') as (H1 & H2 & H3).
    assert (Hacc : dB_le (snd acc) (snd acc')).
    { unfold acc'. destruct (dB_gt v (snd acc)) eqn:E; cbn.
      - apply dB_gt_le, E.
      - apply dB_le_refl. }
    assert (Hv : dB_le v (snd acc')).
    { unfold acc'. destruct (dB_gt v (snd acc)) eqn:E; cbn.
      - apply dB_le_refl.
      - apply dB_gt_false, E. }
    split; [exact (dB_le_trans _ _ _ Hacc H1)|]. split.
    + intros j Hj. destruct (Nat.eq_dec j i) as [->|Hne].
      * exact (dB_le_trans _ _ _ Hv H1).
      * apply H2. lia.
    + destruct H3 as [H3|(Hr & Hs & Hg & Hf)].
      * rewrite H3. unfold acc'.
        destruct (dB_gt v (snd acc)) eqn:E; [right|left; reflexivity].
        cbn. repeat split; auto; lia.
      * right. split; [lia|]. split; [exact Hs|].
        split; [exact (dB_gt_le_trans _ _ _ Hg Hacc)|].
        intros j Hj. destruct (Nat.eq_dec j i) as [->|Hne].
        -- exact (dB_gt_le_trans _ _ _ Hg Hv).
        -- apply Hf. lia.
Qed.


Lemma inject_nat_positive (n : nat) :
  (0 < n)%nat -> (0 < inject_Z (Z.of_nat n))%Q.
Proof.
  intro H. change 0%Q with (inject_Z 0). rewrite <- Zlt_Qlt. lia.
Qed.


(** The two outcomes of the peak picker, whatever the sample rate. *)
Lemma findDominantFrequency_cases (frequencyBins : list dB) (sampleRate : Q) :
  (belowFloor frequencyBins sampleRate
   /\ findDominantFrequency frequencyBins sampleRate = 0%Q)
  \/ (~ belowFloor frequencyBins sampleRate
      /\ exists i,
          firstPeak frequencyBins sampleRate i
          /\ dB_gt (nth i frequencyBins NegInf) energyFloor = true
          /\ findDominantFrequency frequencyBins sampleRate
             = binFrequency (List.length frequencyBins) sampleRate i).
Proof.
  unfold findDominantFrequency, belowFloor, firstPeak, searchRange.
  set (len := List.length frequencyBins) in *.
  set (first := startIndex len sampleRate).
  set (stop := stopIndex len sampleRate).
  pose proof (scanBins_spec frequencyBins (stop - first) first (O, NegInf))
    as Hscan.
  cbn zeta in Hscan.
  destruct (scanBins frequencyBins first (stop - first) (O, NegInf))
    as [maxIndex maxValue].
  cbn [fst snd] in Hscan. destruct Hscan as (_ & Hmax & Hwhere).
  destruct (dB_gt maxValue energyFloor) eqn:Habove.
  - right.
    destruct Hwhere as [Hnone|(Hin & Hval & _ & Hfirst)].
    { injection Hnone as _ ->. discriminate Habove. }
    assert (Hstop : (first + (stop - first) = stop)%nat) by lia.
    rewrite Hstop in *. split.
    + intro Hq. specialize (Hq maxIndex Hin). rewrite <- Hval in Hq.
      apply dB_gt_true in Habove. exact (Habove Hq).
    + exists maxIndex. rewrite <- Hval.
      repeat split; auto; try lia.
      intros j Hj Hlt. apply Hfirst. lia.
  - left. split; [|reflexivity].
    intros j Hj. apply dB_gt_false in Habove.
    apply (dB_le_trans _ maxValue); [|exact Habove].
    apply Hmax. lia.
Qed.



(** ** The tolerance test *)

(** C5: outside endless mode a sample is classified as a hit exactly when its
    distance to the frequency of the current target is at most 40 Hz; a
    distance of exactly 40 Hz, above or below the target, is a hit. *)
Theorem checkTargetHit_inclusive (st : Station) (tgt : TargetTone) (f : Q) :
  endlessMode st = false ->
  getCurrentTarget st = Some tgt ->
  (exists isHitting,
      checkTargetHit st f = Some isHitting
      /\ (isHitting = true <-> (Qabs (f - frequency tgt) <= 40)%Q))
  /\ checkTargetHit st (frequency tgt + 40) = Some true
  /\ checkTargetHit st (frequency tgt - 40) = Some true.
Proof.
  intros He Ht. repeat split.
  - eexists. split; [apply (checkTargetHit_target st tgt f He Ht)|].
    apply Qle_bool_iff.
  - rewrite (checkTargetHit_target st tgt _ He Ht). f_equal.
    apply Qle_bool_iff. unfold tolerance.
    setoid_replace (frequency tgt + 40 - frequency tgt)%Q with 40%Q by ring.
    discriminate.
  - rewrite (checkTargetHit_target st tgt _ He Ht). f_equal.
    apply Qle_bool_iff. unfold tolerance.
    setoid_replace (frequency tgt - 40 - frequency tgt)%Q with (- (40))%Q
      by ring.
    discriminate.
Qed.

Lemma checkTargetHit_inclusive_witness :
  endlessMode holdingStation = false
  /\ getCurrentTarget holdingStation
     = Some {| note := "C"; frequency := 26163 # 100; color := "#ff6b6b" |}
  /\ (exists isHitting,
         checkTargetHit holdingStation (300 # 1) = Some isHitting
         /\ (isHitting = true <->
             (Qabs ((300 # 1) - (26163 # 100)) <= 40)%Q)).
Proof.
  split; [reflexivity|]. split; [reflexivity|].
  apply (checkTargetHit_inclusive holdingStation
           {| note := "C"; frequency := 26163 # 100; color := "#ff6b6b" |}
           (300 # 1)); reflexivity.
Defined.

(** ** Losing the target *)

(** C2: a sample with signal that is outside the tolerance of the current
    target, ingested while the station is hitting the target, puts it back to
    idle with a hold duration (and exposed progress) of 0, and the mission
    counters do not move.  Nothing of the hold is kept: the next sample on
    target starts a new hold at its own timestamp, with a duration of 0. *)
Theorem off_target_sample_resets_hold
  (st : Station) (tgt : TargetTone) (f : Q) (now : Z) :
  missionState st = HittingTarget ->
  getCurrentTarget st = Some tgt ->
  (0 < f)%Q ->
  ~ withinTolerance tgt f ->
  exists st',
    ingestSample f now st = Some st'
    /\ missionState st' = Idle
    /\ hitDuration st' = 0
    /\ hitProgress st' = Some 0%Q
    /\ completedTones st' = completedTones st
    /\ currentToneIndex st' = currentToneIndex st
    /\ timers st' = timers st
    /\ forall f' now',
        (0 < f')%Q ->
        withinTolerance tgt f' ->
        exists st'',
          ingestSample f' now' st' = Some st''
          /\ missionState st'' = HittingTarget
          /\ hitStartTime st'' = now'
          /\ hitDuration st'' = 0.
Proof.
  intros Hs Ht Hf Hout.
  apply missionState_HittingTarget in Hs. destruct Hs as (He & Hc & Hh).
  assert (Hb : Qle_bool (Qabs (f - frequency tgt)) tolerance = false).
  { apply Qle_bool_false. apply Qnot_le_lt. exact Hout. }
  eexists. split.
  - rewrite (ingest_signal st tgt f now He Ht Hf), Hb.
    rewrite (handleTargetHit_release false now st He eq_refl Hh).
    reflexivity.
  - cbn. rewrite missionState_Idle. cbn.
    repeat (split; [solve [auto]|]).
    intros f' now' Hf' Hin'. eexists. split.
    + apply (ingest_on_target _ tgt f' now'); auto.
    + unfold hitAt. cbn. rewrite Z.sub_diag. cbn.
      rewrite missionState_HittingTarget. cbn. auto.
Qed.

Lemma off_target_sample_resets_hold_witness :
  missionState holdingStation = HittingTarget
  /\ hitDuration holdingStation = 500
  /\ exists st',
      ingestSample (320 # 1) 516 holdingStation = Some st'
      /\ missionState st' = Idle
      /\ hitDuration st' = 0.
Proof.
  split; [reflexivity|]. split; [reflexivity|].
  destruct (off_target_sample_resets_hold holdingStation
              {| note := "C"; frequency := 26163 # 100; color := "#ff6b6b" |}
              (320 # 1) 516)
    as (st' & H1 & H2 & H3 & _).
  - reflexivity.
  - reflexivity.
  - reflexivity.
  - unfold withinTolerance. vm_compute. intro H. apply H. reflexivity.
  - exists st'. auto.
Defined.

(** ** Samples without signal *)

(** The claim C1 fails on the station that has held the first target for
    half a second: a silent spectrum at 516 ms leaves it hitting the target
    with its 500 ms of hold. *)
Lemma silent_frame_keeps_hold :
  missionState holdingStation = HittingTarget
  /\ findDominantFrequency silence (sampleRateNumber holdingStation) = 0%Q
  /\ ~ (missionState (visualizationLoop silence 516 holdingStation) = Idle
        /\ hitDuration (visualizationLoop silence 516 holdingStation) = 0).
Proof.
  split; [reflexivity|]. split; [vm_compute; reflexivity|].
  vm_compute. intros [H _]. discriminate H.
Qed.

(** C1, amended: a sample without signal (a dominant frequency of 0, which
    is what a spectrum with no bin above the energy floor gives) leaves the
    station exactly as it was; a station that is hitting the target stays so
    and keeps its hold window. *)
Theorem no_signal_sample_changes_nothing (st : Station) (f : Q) (now : Z) :
  (f <= 0)%Q ->
  ingestSample f now st = Some st
  /\ frame f now st = st
  /\ (forall frequencyBins,
         belowFloor frequencyBins (sampleRateNumber st) ->
         detectTone frequencyBins now st = Some st
         /\ visualizationLoop frequencyBins now st = st)
  /\ (missionState st = HittingTarget ->
      missionState (frame f now st) = HittingTarget
      /\ hitStartTime (frame f now st) = hitStartTime st
      /\ hitDuration (frame f now st) = hitDuration st).
Proof.
  intro Hf.
  assert (Hi : forall g, (g <= 0)%Q -> ingestSample g now st = Some st).
  { intros g Hg. apply Qle_bool_iff in Hg.
    unfold ingestSample. rewrite Hg. reflexivity. }
  assert (Hfr : forall g, (g <= 0)%Q -> frame g now st = st).
  { intros g Hg. unfold frame. rewrite (Hi g Hg).
    destruct (isRecording st); reflexivity. }
  rewrite (Hfr f Hf). split; [exact (Hi f Hf)|]. split; [reflexivity|].
  split; [|auto].
  intros frequencyBins Hq. unfold detectTone, visualizationLoop.
  destruct (findDominantFrequency_cases frequencyBins (sampleRateNumber st))
    as [(_ & ->)|(Hloud & _)]; [|contradiction].
  split; [apply Hi|apply Hfr]; apply Qle_refl.
Qed.

Lemma no_signal_sample_changes_nothing_witness :
  (0 <= 0)%Q
  /\ ingestSample 0 516 holdingStation = Some holdingStation
  /\ frame 0 516 holdingStation = holdingStation.
Proof.
  split; [discriminate|].
  destruct (no_signal_sample_changes_nothing holdingStation 0 516)
    as (H1 & H2 & _).
  - discriminate.
  - auto.
Defined.

(** ** The stop button *)

(** C10: [stopRecording] clears the hold window when the mission is neither
    completed nor in endless mode; when it is completed or in endless mode
    only the recording fields change; the mission counters and flags are the
    same in both cases. *)
Theorem stopRecording_frame (st : Station) :
  (missionCompleted st = false /\ endlessMode st = false ->
   isHittingTarget (stopRecording st) = false
   /\ hitDuration (stopRecording st) = 0
   /\ hitStartTime (stopRecording st) = 0)
  /\ (missionCompleted st = true \/ endlessMode st = true ->
      stopRecording st = set_recording None false st)
  /\ isRecording (stopRecording st) = false
  /\ audioContext (stopRecording st) = None
  /\ completedTones (stopRecording st) = completedTones st
  /\ currentToneIndex (stopRecording st) = currentToneIndex st
  /\ missionCompleted (stopRecording st) = missionCompleted st
  /\ endlessMode (stopRecording st) = endlessMode st
  /\ timers (stopRecording st) = timers st.
Proof.
  unfold stopRecording. cbn.
  destruct (missionCompleted st) eqn:Hc, (endlessMode st) eqn:He; cbn;
    rewrite ?Hc, ?He; repeat split; try reflexivity;
    intros; intuition congruence.
Qed.

Lemma stopRecording_frame_witness :
  (missionCompleted holdingStation = false
   /\ endlessMode holdingStation = false)
  /\ hitDuration holdingStation = 500
  /\ hitDuration (stopRecording holdingStation) = 0
  /\ missionCompleted overshootStation = true
  /\ stopRecording overshootStation
     = set_recording None false overshootStation.
Proof.
  split; [split; reflexivity|]. split; [reflexivity|]. split.
  - exact (proj1 (proj2 (proj1 (stopRecording_frame holdingStation)
                           (conj eq_refl eq_refl)))).
  - split; [reflexivity|].
    exact (proj1 (proj2 (stopRecording_frame overshootStation))
             (or_introl eq_refl)).
Defined.

(** ** Invariant of the event loop *)

Lemma consistent_initial : consistent initialStation.
Proof.
  unfold consistent. cbn. repeat split; auto with arith.
Qed.

Lemma consistent_handleTargetHit (b : bool) (now : Z) (st : Station) :
  endlessMode st = false ->
  consistent st ->
  consistent (handleTargetHit b now st).
Proof.
  destruct st as [ctx rec rate idx hit start dur mc ct em prog ts].
  unfold consistent, handleTargetHit, completeMission, pendingTimer.
  cbn. intros -> (Hd & Hi & Hc & Ht). subst ts ct.
  destruct idx as [|[|[|idx]]]; [| | |lia];
    destruct b, mc, hit; cbn; split_ifs;
    repeat split; auto; try congruence; lia.
Qed.

Lemma consistent_frame (f : Q) (now : Z) (st : Station) :
  consistent st -> consistent (frame f now st).
Proof.
  intro H. unfold frame, ingestSample.
  destruct (isRecording st); [|exact H].
  destruct (negb (Qle_bool f 0)); [|exact H].
  destruct (endlessMode st) eqn:He; cbn; [exact H|].
  destruct (checkTargetHit st f); [|exact H].
  apply consistent_handleTargetHit; assumption.
Qed.

Lemma consistent_timeout (st : Station) :
  consistent st -> consistent (step Timeout st).
Proof.
  destruct st as [ctx rec rate idx hit start dur mc ct em prog ts].
  unfold consistent, step, pendingTimer. cbn.
  intros (Hd & H). destruct em.
  - destruct H as (Hc & Hm & Hh & Ht). subst ts. cbn. auto.
  - destruct H as (Hi & Hc & Ht). subst ts ct.
    destruct idx as [|[|[|idx]]]; [| | |lia];
      destruct mc; cbn; repeat split; auto; lia.
Qed.

Lemma consistent_toggleRecording (mic : option Q) (st : Station) :
  consistent st -> consistent (toggleRecording mic st).
Proof.
  destruct st as [ctx rec rate idx hit start dur mc ct em prog ts].
  unfold consistent, toggleRecording, startRecording, stopRecording,
    pendingTimer.
  cbn. intros (Hd & H).
  destruct rec; cbn.
  - destruct mc, em; cbn; auto.
  - destruct mic; cbn; auto.
Qed.

Lemma consistent_step (e : event) (st : Station) :
  consistent st -> consistent (step e st).
Proof.
  destruct e as [f now| |mic]; intro H.
  - apply consistent_frame, H.
  - apply consistent_timeout, H.
  - apply consistent_toggleRecording, H.
Qed.

Lemma reachable_consistent (st : Station) : reachable st -> consistent st.
Proof.
  induction 1 as [|e st _ IH].
  - exact consistent_initial.
  - apply consistent_step, IH.
Qed.

(** Outside endless mode the current target exists, so that
    [checkTargetHit] never raises on a station the event loop produced. *)
Lemma reachable_has_target (st : Station) :
  reachable st ->
  endlessMode st = false ->
  exists tgt, getCurrentTarget st = Some tgt.
Proof.
  intros Hr He. destruct (reachable_consistent st Hr) as (_ & Hc).
  rewrite He in Hc. destruct Hc as (Hi & _).
  unfold getCurrentTarget.
  destruct (nth_error targetTones (currentToneIndex st)) eqn:E; eauto.
  apply nth_error_None in E. lia.
Qed.

Lemma reachable_run (es : list event) (st : Station) :
  reachable st -> reachable (run es st).
Proof.
  revert st. induction es as [|e es IH]; intros st H; cbn.
  - exact H.
  - apply IH. constructor. exact H.
Qed.

(** ** Counting completed tones *)

(** What [handleTargetHit] and a frame never touch. *)
Lemma handleTargetHit_keeps (b : bool) (now : Z) (st : Station) :
  endlessMode (handleTargetHit b now st) = endlessMode st
  /\ currentToneIndex (handleTargetHit b now st) = currentToneIndex st
  /\ isRecording (handleTargetHit b now st) = isRecording st
  /\ sampleRate (handleTargetHit b now st) = sampleRate st
  /\ audioContext (handleTargetHit b now st) = audioContext st.
Proof.
  destruct st as [ctx rec rate idx hit start dur mc ct em prog ts].
  unfold handleTargetHit, completeMission.
  destruct em, b, mc, hit; cbn; split_ifs; auto.
Qed.

Lemma frame_keeps (f : Q) (now : Z) (st : Station) :
  endlessMode (frame f now st) = endlessMode st
  /\ currentToneIndex (frame f now st) = currentToneIndex st
  /\ isRecording (frame f now st) = isRecording st
  /\ sampleRate (frame f now st) = sampleRate st
  /\ audioContext (frame f now st) = audioContext st.
Proof.
  unfold frame, ingestSample.
  destruct (isRecording st) eqn:Hr; auto.
  destruct (negb (Qle_bool f 0)); auto.
  destruct (negb (endlessMode st)); auto.
  destruct (checkTargetHit st f) as [b|]; auto.
  pose proof (handleTargetHit_keeps b now st) as H.
  rewrite Hr in H. exact H.
Qed.




Lemma reachable_stationA : reachable stationA.
Proof.
  apply reachable_run. constructor.
Qed.


(** ** Endless mode *)

Lemma endless_step (e : event) (st : Station) :
  endlessMode st = true ->
  timers st = [] ->
  missionFields (step e st) = missionFields st.
Proof.
  destruct st as [ctx rec rate idx hit start dur mc ct em prog ts].
  cbn. intros -> ->.
  destruct e as [f now| |mic]; unfold step.
  - unfold frame, ingestSample. cbn. destruct rec; [|reflexivity].
    destruct (negb (Qle_bool f 0)); reflexivity.
  - reflexivity.
  - unfold toggleRecording, startRecording, stopRecording. cbn.
    destruct rec, mc, mic; reflexivity.
Qed.

Lemma endless_run (es : list event) (st : Station) :
  endlessMode st = true ->
  timers st = [] ->
  missionFields (run es st) = missionFields st.
Proof.
  revert st. induction es as [|e es IH]; intros st He Ht; cbn.
  - reflexivity.
  - pose proof (endless_step e st He Ht) as Hs.
    rewrite IH.
    + exact Hs.
    + unfold missionFields in Hs. congruence.
    + unfold missionFields in Hs. congruence.
Qed.

(** C7: once the event loop has brought the station into endless mode, it
    stays there whatever happens next (frames, timers, the start/stop
    button): the target index, the hold flag and window, the completion flag,
    the count of completed tones, the exposed progress and the (empty) list
    of pending timers never change again, and a sample is passed through
    without being classified. *)
Theorem endlessMode_is_terminal (es : list event) (st : Station) :
  reachable st ->
  endlessMode st = true ->
  missionState (run es st) = EndlessMode
  /\ missionFields (run es st) = missionFields st
  /\ timers (run es st) = []
  /\ forall f now, ingestSample f now (run es st) = Some (run es st).
Proof.
  intros Hr He.
  assert (Ht : timers st = []).
  { destruct (reachable_consistent st Hr) as (_ & Hc).
    rewrite He in Hc. tauto. }
  pose proof (endless_run es st He Ht) as Hk.
  assert (He' : endlessMode (run es st) = true).
  { unfold missionFields in Hk. congruence. }
  split; [apply missionState_EndlessMode, He'|].
  split; [exact Hk|].
  split; [unfold missionFields in Hk; congruence|].
  intros f now. unfold ingestSample. rewrite He'.
  destruct (negb (Qle_bool f 0)); reflexivity.
Qed.

Lemma endlessMode_is_terminal_witness :
  reachable endlessStation
  /\ endlessMode endlessStation = true
  /\ missionState
       (run [Sample (440 # 1) 9000; Sample (440 # 1) 11000; Timeout;
             Click None; Click (Some cdRate)] endlessStation)
     = EndlessMode.
Proof.
  assert (Hr : reachable endlessStation).
  { apply reachable_run. exact reachable_stationA. }
  split; [exact Hr|]. split; [reflexivity|].
  exact (proj1 (endlessMode_is_terminal _ endlessStation Hr eq_refl)).
Defined.

(** ** Holding a target *)

Lemma run_app (es1 es2 : list event) (st : Station) :
  run (es1 ++ es2) st = run es2 (run es1 st).
Proof.
  unfold run. apply fold_left_app.
Qed.

Lemma completions_app (es1 es2 : list event) (st : Station) :
  completions (es1 ++ es2) st
  = (completions es1 st + completions es2 (run es1 st))%nat.
Proof.
  revert st. induction es1 as [|e es1 IH]; intro st; cbn.
  - reflexivity.
  - rewrite IH. apply Nat.add_assoc.
Qed.

Lemma run_samples_cons (s : Q * Z) (l : list (Q * Z)) (st : Station) :
  run (samples (s :: l)) st = run (samples l) (frame (fst s) (snd s) st).
Proof.
  reflexivity.
Qed.

Lemma completions_samples_cons
  (s : Q * Z) (l : list (Q * Z)) (st : Station) :
  completions (samples (s :: l)) st
  = ((if (completedTones st
          <? completedTones (frame (fst s) (snd s) st))%nat
      then 1 else 0)
     + completions (samples l) (frame (fst s) (snd s) st))%nat.
Proof.
  reflexivity.
Qed.

(** A hit on a mission that is not completed, at the level of the frame. *)
Lemma frame_on_target
  (st : Station) (tgt : TargetTone) (f : Q) (now : Z) :
  isRecording st = true ->
  endlessMode st = false ->
  missionCompleted st = false ->
  getCurrentTarget st = Some tgt ->
  (0 < f)%Q ->
  withinTolerance tgt f ->
  frame f now st
  = if requiredHitDuration <=? hitDuration (hitAt now st)
    then completeMission (hitAt now st)
    else hitAt now st.
Proof.
  intros Hr He Hc Ht Hf Hin.
  apply (frame_ingest f now st _ Hr).
  exact (ingest_on_target st tgt f now He Hc Ht Hf Hin).
Qed.

(** A sample of any kind on a completed mission: the hold flag may drop,
    nothing else moves. *)
Lemma frame_completed (f : Q) (now : Z) (st : Station) :
  missionCompleted st = true ->
  endlessMode st = false ->
  missionCompleted (frame f now st) = true
  /\ endlessMode (frame f now st) = false
  /\ completedTones (frame f now st) = completedTones st
  /\ currentToneIndex (frame f now st) = currentToneIndex st
  /\ timers (frame f now st) = timers st.
Proof.
  intros Hc He. unfold frame, ingestSample.
  destruct (isRecording st); auto.
  destruct (negb (Qle_bool f 0)); auto.
  rewrite He. cbn [negb].
  destruct (checkTargetHit st f) as [b|]; auto.
  unfold handleTargetHit. rewrite He, Hc, andb_false_r. cbn [negb].
  destruct (isHittingTarget st); cbn; auto.
Qed.

Lemma run_completed (l : list (Q * Z)) (st : Station) :
  missionCompleted st = true ->
  endlessMode st = false ->
  missionState (run (samples l) st) = Completed
  /\ completedTones (run (samples l) st) = completedTones st
  /\ currentToneIndex (run (samples l) st) = currentToneIndex st
  /\ timers (run (samples l) st) = timers st
  /\ completions (samples l) st = O.
Proof.
  revert st. induction l as [|s l IH]; intros st Hc He.
  - cbn. rewrite missionState_Completed. auto.
  - destruct (frame_completed (fst s) (snd s) st Hc He)
      as (Hc' & He' & Hn & Hi & Ht).
    destruct (IH _ Hc' He') as (H1 & H2 & H3 & H4 & H5).
    rewrite run_samples_cons, completions_samples_cons.
    rewrite H1, H2, H3, H4, H5, Hn, Hi, Ht, Nat.ltb_irrefl. auto.
Qed.

Lemma holding_short
  (st : Station) (tgt : TargetTone) (t0 : Z) (s : Q * Z) :
  holdingSince tgt t0 st ->
  onTarget tgt s ->
  snd s < t0 + requiredHitDuration ->
  holdingSince tgt t0 (frame (fst s) (snd s) st)
  /\ completedTones (frame (fst s) (snd s) st) = completedTones st
  /\ currentToneIndex (frame (fst s) (snd s) st) = currentToneIndex st
  /\ timers (frame (fst s) (snd s) st) = timers st.
Proof.
  intros (Hr & He & Hc & Hh & Hs & Ht) (Hf & Hin) Hlt.
  rewrite (frame_on_target st tgt _ (snd s) Hr He Hc Ht Hf Hin).
  destruct st as [ctx rec rate idx hit start dur mc ct em prog ts].
  unfold holdingSince, getCurrentTarget, hitAt in *. cbn in *. subst.
  destruct (requiredHitDuration <=? snd s - t0) eqn:E.
  - apply Z.leb_le in E. lia.
  - cbn. auto 10.
Qed.

Lemma holding_long
  (st : Station) (tgt : TargetTone) (t0 : Z) (s : Q * Z) :
  holdingSince tgt t0 st ->
  onTarget tgt s ->
  t0 + requiredHitDuration <= snd s ->
  missionCompleted (frame (fst s) (snd s) st) = true
  /\ endlessMode (frame (fst s) (snd s) st) = false
  /\ completedTones (frame (fst s) (snd s) st) = S (completedTones st)
  /\ currentToneIndex (frame (fst s) (snd s) st) = currentToneIndex st
  /\ exists c,
      timers (frame (fst s) (snd s) st)
      = timers st ++ [ {| timer_callback := c; timer_delay := 3000 |} ].
Proof.
  intros (Hr & He & Hc & Hh & Hs & Ht) (Hf & Hin) Hle.
  rewrite (frame_on_target st tgt _ (snd s) Hr He Hc Ht Hf Hin).
  destruct st as [ctx rec rate idx hit start dur mc ct em prog ts].
  unfold holdingSince, getCurrentTarget, hitAt in *. cbn in *. subst.
  destruct (requiredHitDuration <=? snd s - t0) eqn:E.
  - unfold completeMission. cbn.
    destruct (match ct with S (S _) => true | _ => false end);
      cbn; eauto 10.
  - apply Z.leb_gt in E. lia.
Qed.

Lemma idle_start
  (st : Station) (tgt : TargetTone) (s : Q * Z) :
  isRecording st = true ->
  missionState st = Idle ->
  getCurrentTarget st = Some tgt ->
  onTarget tgt s ->
  holdingSince tgt (snd s) (frame (fst s) (snd s) st)
  /\ completedTones (frame (fst s) (snd s) st) = completedTones st
  /\ currentToneIndex (frame (fst s) (snd s) st) = currentToneIndex st
  /\ timers (frame (fst s) (snd s) st) = timers st.
Proof.
  intros Hr Hi Ht (Hf & Hin).
  apply missionState_Idle in Hi. destruct Hi as (He & Hc & Hh).
  rewrite (frame_on_target st tgt _ (snd s) Hr He Hc Ht Hf Hin).
  destruct st as [ctx rec rate idx hit start dur mc ct em prog ts].
  unfold holdingSince, getCurrentTarget, hitAt in *. cbn in *. subst.
  rewrite Z.sub_diag. cbn. auto 10.
Qed.

Lemma holding_run (tgt : TargetTone) (t0 : Z) (l : list (Q * Z)) :
  forall st,
    holdingSince tgt t0 st ->
    Forall (onTarget tgt) l ->
    Exists (fun s => t0 + requiredHitDuration <= snd s) l ->
    missionState (run (samples l) st) = Completed
    /\ completedTones (run (samples l) st) = S (completedTones st)
    /\ currentToneIndex (run (samples l) st) = currentToneIndex st
    /\ completions (samples l) st = 1%nat
    /\ exists c,
        timers (run (samples l) st)
        = timers st ++ [ {| timer_callback := c; timer_delay := 3000 |} ].
Proof.
  induction l as [|s l IH]; intros st Hh Hall Hex.
  - inversion Hex.
  - inversion Hall as [|s' l' Hs Hl]; subst.
    rewrite run_samples_cons, completions_samples_cons.
    destruct (Z_le_gt_dec (t0 + requiredHitDuration) (snd s)) as [Hle|Hgt].
    + destruct (holding_long st tgt t0 s Hh Hs Hle)
        as (Hc & He & Hn & Hi & c & Ht).
      destruct (run_completed l _ Hc He) as (H1 & H2 & H3 & H4 & H5).
      rewrite H1, H2, H3, H4, H5, Hn, Hi, Ht.
      rewrite (proj2 (Nat.ltb_lt _ _) (Nat.lt_succ_diag_r _)). eauto 10.
    + assert (Hlt : snd s < t0 + requiredHitDuration) by lia.
      destruct (holding_short st tgt t0 s Hh Hs Hlt)
        as (Hh' & Hn & Hi & Ht).
      assert (Hex' : Exists (fun s => t0 + requiredHitDuration <= snd s) l).
      { inversion Hex; subst; [lia|assumption]. }
      destruct (IH _ Hh' Hl Hex') as (H1 & H2 & H3 & H4 & c & H5).
      rewrite H1, H2, H3, H4, H5, Hn, Hi, Ht, Nat.ltb_irrefl. eauto 10.
Qed.

(** C4: from idle, a stream of samples that are all on target and that
    spans at least 1500 ms between its first sample and some later one (by
    their timestamps, however many samples there are) completes the mission
    exactly once: the station is Completed, [completedTones] went up by one,
    one step of the trace raised it and one callback was scheduled.  Whatever
    samples follow, on target or not, do not complete again: the station is
    still Completed with the same count, target and pending timer. *)
Theorem hold_completes_exactly_once
  (st : Station) (tgt : TargetTone) (first : Q * Z)
  (rest more : list (Q * Z)) :
  reachable st ->
  isRecording st = true ->
  missionState st = Idle ->
  getCurrentTarget st = Some tgt ->
  Forall (onTarget tgt) (first :: rest) ->
  Exists (fun s => snd first + requiredHitDuration <= snd s) rest ->
  (missionState (run (samples (first :: rest)) st) = Completed
   /\ completedTones (run (samples (first :: rest)) st)
      = S (completedTones st)
   /\ completions (samples (first :: rest)) st = 1%nat
   /\ exists c,
       timers (run (samples (first :: rest)) st)
       = timers st ++ [ {| timer_callback := c; timer_delay := 3000 |} ])
  /\ (missionState (run (samples (first :: rest) ++ samples more) st)
      = Completed
      /\ completedTones (run (samples (first :: rest) ++ samples more) st)
         = S (completedTones st)
      /\ completions (samples (first :: rest) ++ samples more) st = 1%nat
      /\ currentToneIndex (run (samples (first :: rest) ++ samples more) st)
         = currentToneIndex st
      /\ timers (run (samples (first :: rest) ++ samples more) st)
         = timers (run (samples (first :: rest)) st)).
Proof.
  intros _ Hr Hi Ht Hall Hex.
  inversion Hall as [|s' l' Hs Hl]; subst.
  destruct (idle_start st tgt first Hr Hi Ht Hs) as (Hh & Hn & Hidx & Hts).
  destruct (holding_run tgt (snd first) rest _ Hh Hl Hex)
    as (H1 & H2 & H3 & H4 & c & H5).
  assert (Hheld :
    missionState (run (samples (first :: rest)) st) = Completed
    /\ completedTones (run (samples (first :: rest)) st)
       = S (completedTones st)
    /\ completions (samples (first :: rest)) st = 1%nat
    /\ currentToneIndex (run (samples (first :: rest)) st)
       = currentToneIndex st
    /\ timers (run (samples (first :: rest)) st)
       = timers st ++ [ {| timer_callback := c; timer_delay := 3000 |} ]).
  { rewrite run_samples_cons, completions_samples_cons.
    rewrite H1, H2, H3, H4, H5, Hn, Hidx, Hts, Nat.ltb_irrefl. auto. }
  destruct Hheld as (G1 & G2 & G3 & G4 & G5).
  split; [eauto 10|].
  apply missionState_Completed in G1. destruct G1 as (He & Hc).
  destruct (run_completed more _ Hc He) as (K1 & K2 & K3 & K4 & K5).
  rewrite run_app, completions_app.
  rewrite K1, K2, K3, K4, K5, G2, G3, G4. auto.
Qed.

Lemma hold_completes_exactly_once_witness :
  reachable recordingStation
  /\ isRecording recordingStation = true
  /\ missionState recordingStation = Idle
  /\ completions
       (samples [(260 # 1, 0); (262 # 1, 700); (261 # 1, 1500)]
        ++ samples [(500 # 1, 1600); (260 # 1, 1700); (260 # 1, 4000)])
       recordingStation
     = 1%nat.
Proof.
  assert (Hreach : reachable recordingStation) by repeat constructor.
  split; [exact Hreach|]. split; [reflexivity|]. split; [reflexivity|].
  refine (proj1 (proj2 (proj2 (proj2
    (hold_completes_exactly_once recordingStation
       {| note := "C"; frequency := 26163 # 100; color := "#ff6b6b" |}
       (260 # 1, 0) [(262 # 1, 700); (261 # 1, 1500)]
       [(500 # 1, 1600); (260 # 1, 1700); (260 # 1, 4000)]
       Hreach eq_refl eq_refl eq_refl _ _))))).
  - repeat constructor; vm_compute; congruence.
  - apply Exists_cons_tl, Exists_cons_hd. vm_compute. congruence.
Defined.

(** ** When completion fires *)

Lemma completionTime_samples_cons
  (s : Q * Z) (l : list (Q * Z)) (st : Station) :
  completionTime (samples (s :: l)) st
  = if (completedTones st
        <? completedTones (frame (fst s) (snd s) st))%nat
    then Some (snd s)
    else completionTime (samples l) (frame (fst s) (snd s) st).
Proof.
  reflexivity.
Qed.

Lemma holding_completionTime (tgt : TargetTone) (t0 : Z) (l : list (Q * Z)) :
  forall st,
    holdingSince tgt t0 st ->
    Forall (onTarget tgt) l ->
    completionTime (samples l) st
    = option_map snd
        (find (fun s => t0 + requiredHitDuration <=? snd s) l).
Proof.
  induction l as [|s l IH]; intros st Hh Hall.
  - reflexivity.
  - inversion Hall as [|s' l' Hs Hl]; subst.
    rewrite completionTime_samples_cons. cbn [find].
    destruct (t0 + requiredHitDuration <=? snd s) eqn:E.
    + apply Z.leb_le in E.
      destruct (holding_long st tgt t0 s Hh Hs E) as (_ & _ & Hn & _).
      rewrite Hn, (proj2 (Nat.ltb_lt _ _) (Nat.lt_succ_diag_r _)).
      reflexivity.
    + apply Z.leb_gt in E.
      destruct (holding_short st tgt t0 s Hh Hs E) as (Hh' & Hn & _).
      rewrite Hn, Nat.ltb_irrefl. apply IH; assumption.
Qed.

(** The claim C3 fails on scenario A: with samples at 0 ms and 1600 ms only,
    nothing completes at 1500 ms; the station is still hitting the target
    then, and the mission completes on the sample of 1600 ms. *)
Lemma scenarioA_not_completed_at_1500 :
  getCurrentTarget stationA
  = Some {| note := "A"; frequency := 440 # 1; color := "#45b7d1" |}
  /\ completionTime scenarioA stationA <> Some 1500
  /\ missionState (run (upTo 1500 scenarioA) stationA) <> Completed
  /\ completionTime scenarioA stationA = Some 1600.
Proof.
  vm_compute. repeat split; congruence.
Qed.

(** C3, amended: completion is detected when a sample is ingested, on the
    first on-target sample whose timestamp is at least 1500 ms after the
    sample that started the hit (or never, when there is no such sample).
    For the target of 440 Hz and samples of 435 Hz at 0 ms and 1600 ms the
    mission completes on the sample of 1600 ms, with a hold of 1600 ms; at
    1500 ms the station is still hitting the target. *)
Theorem completion_fires_on_sample
  (st : Station) (tgt : TargetTone) (first : Q * Z) (rest : list (Q * Z)) :
  reachable st ->
  isRecording st = true ->
  missionState st = Idle ->
  getCurrentTarget st = Some tgt ->
  Forall (onTarget tgt) (first :: rest) ->
  completionTime (samples (first :: rest)) st
  = option_map snd
      (find (fun s => snd first + requiredHitDuration <=? snd s) rest)
  /\ completionTime scenarioA stationA = Some 1600
  /\ hitDuration (run scenarioA stationA) = 1600
  /\ missionState (run scenarioA stationA) = Completed
  /\ missionState (run (upTo 1500 scenarioA) stationA) = HittingTarget.
Proof.
  intros _ Hr Hi Ht Hall.
  split; [|vm_compute; auto].
  inversion Hall as [|s' l' Hs Hl]; subst.
  destruct (idle_start st tgt first Hr Hi Ht Hs) as (Hh & Hn & _).
  rewrite completionTime_samples_cons, Hn, Nat.ltb_irrefl.
  apply (holding_completionTime tgt (snd first) rest _ Hh Hl).
Qed.

Lemma completion_fires_on_sample_witness :
  reachable stationA
  /\ isRecording stationA = true
  /\ missionState stationA = Idle
  /\ completionTime (samples [(435 # 1, 0); (435 # 1, 1600)]) stationA
     = Some 1600.
Proof.
  split; [exact reachable_stationA|].
  split; [reflexivity|]. split; [reflexivity|].
  refine (proj1
    (completion_fires_on_sample stationA
       {| note := "A"; frequency := 440 # 1; color := "#45b7d1" |}
       (435 # 1, 0) [(435 # 1, 1600)]
       reachable_stationA eq_refl eq_refl eq_refl _)).
  repeat constructor; vm_compute; congruence.
Defined.

(** ** The exposed hold progress *)

(** The claim C8 fails after a hold whose completing sample comes 1600 ms
    after the first: the station is Completed, not HittingTarget, and the
    progress it exposed last is 1600/1500, neither 0 nor at most 1; the
    intensity computed from it is above the 1.2 that the comment in
    [updateHitProgress] gives as its maximum. *)
Lemma progress_overshoots_when_completed :
  reachable overshootStation
  /\ missionState overshootStation = Completed
  /\ hitProgress overshootStation = Some (1600 # 1500)
  /\ ~ (1600 # 1500 <= 1)%Q
  /\ ~ (1600 # 1500 == 0)%Q
  /\ ~ (intensity (1600 # 1500) <= 12 # 10)%Q.
Proof.
  split.
  { apply reachable_run. constructor. constructor. }
  vm_compute. repeat split; congruence.
Qed.

Lemma progressOk_later (t t' : Z) (st : Station) :
  t <= t' -> progressOk t st -> progressOk t' st.
Proof.
  unfold progressOk. intros Hle H He. specialize (H He).
  destruct H as (H1 & H2). split; [exact H1|].
  intro Hh. specialize (H2 Hh). intuition lia.
Qed.

Lemma progressOk_handleTargetHit (b : bool) (t now : Z) (st : Station) :
  t <= now ->
  progressOk t st ->
  progressOk now (handleTargetHit b now st).
Proof.
  destruct st as [ctx rec rate idx hit start dur mc ct em prog ts].
  unfold progressOk, handleTargetHit, completeMission, holdRatio.
  cbn. intros Hle H.
  destruct em; [cbn; intros; discriminate|].
  specialize (H eq_refl). destruct H as (H1 & H2).
  destruct b, mc, hit; cbn;
    try (destruct (requiredHitDuration <=? _) eqn:E; cbn;
         [apply Z.leb_le in E | apply Z.leb_gt in E]);
    split_ifs; intros _; (split; [intros Hh | intros Hh]);
    try discriminate Hh; auto;
    try specialize (H1 eq_refl); try specialize (H2 eq_refl);
    repeat split; auto; try congruence; try lia.
Qed.

Lemma progressOk_frame (f : Q) (t now : Z) (st : Station) :
  t <= now ->
  progressOk t st ->
  progressOk now (frame f now st).
Proof.
  intros Hle H. unfold frame, ingestSample.
  destruct (isRecording st); [|exact (progressOk_later t now st Hle H)].
  destruct (negb (Qle_bool f 0));
    [|exact (progressOk_later t now st Hle H)].
  destruct (negb (endlessMode st));
    [|exact (progressOk_later t now st Hle H)].
  destruct (checkTargetHit st f) as [b|];
    [|exact (progressOk_later t now st Hle H)].
  exact (progressOk_handleTargetHit b t now st Hle H).
Qed.

Lemma progressOk_timeout (t : Z) (st : Station) :
  progressOk t st -> progressOk t (step Timeout st).
Proof.
  destruct st as [ctx rec rate idx hit start dur mc ct em prog ts].
  unfold progressOk, step. cbn.
  destruct ts as [|[[|] d] rest]; cbn; auto.
  - intros _ _. split; [auto|discriminate].
  - intros _ Hf. discriminate Hf.
Qed.

Lemma progressOk_toggleRecording (mic : option Q) (t : Z) (st : Station) :
  progressOk t st -> progressOk t (toggleRecording mic st).
Proof.
  destruct st as [ctx rec rate idx hit start dur mc ct em prog ts].
  unfold progressOk, toggleRecording, startRecording, stopRecording.
  cbn. destruct rec; cbn.
  - destruct mc, em; cbn; auto.
    intros _ _. split; [auto|discriminate].
  - destruct mic; cbn; auto.
Qed.

Lemma progressOk_run (es : list event) :
  forall t st,
    nondecreasing t es ->
    progressOk t st ->
    exists t', progressOk t' (run es st).
Proof.
  induction es as [|e es IH]; intros t st Hn H.
  - exists t. exact H.
  - destruct e as [f now| |mic]; cbn in Hn.
    + destruct Hn as (Hle & Hn).
      exact (IH now _ Hn (progressOk_frame f t now st Hle H)).
    + exact (IH t _ Hn (progressOk_timeout t st H)).
    + exact (IH t _ Hn (progressOk_toggleRecording mic t st H)).
Qed.

Lemma holdRatio_bounds (d : Z) :
  0 <= d < requiredHitDuration ->
  (0 <= inject_Z d / inject_Z requiredHitDuration)%Q
  /\ (inject_Z d / inject_Z requiredHitDuration < 1)%Q.
Proof.
  unfold requiredHitDuration, Qle, Qlt, Qdiv, Qmult, Qinv, inject_Z.
  cbn. lia.
Qed.

(** C8, amended: as long as the timestamps of the samples never go down, the
    progress exposed to the presentation layer is 0 whenever the station is
    idle, and while it is hitting the target it is hitDuration /
    requiredHitDuration, at least 0 and below 1.  The ratio is not clamped,
    and nothing is said about the value left exposed by a completed
    mission. *)
Theorem hold_progress_while_idle_or_hitting (es : list event) (t0 : Z) :
  nondecreasing t0 es ->
  (missionState (run es initialStation) = Idle ->
   hitDuration (run es initialStation) = 0
   /\ forall p, hitProgress (run es initialStation) = Some p -> (p == 0)%Q)
  /\ (missionState (run es initialStation) = HittingTarget ->
      0 <= hitDuration (run es initialStation) < requiredHitDuration
      /\ hitProgress (run es initialStation)
         = Some (holdRatio (run es initialStation))
      /\ (0 <= holdRatio (run es initialStation))%Q
      /\ (holdRatio (run es initialStation) < 1)%Q).
Proof.
  intro Hn.
  assert (H0 : progressOk t0 initialStation).
  { intros _. cbn. split; [auto|discriminate]. }
  destruct (progressOk_run es t0 initialStation Hn H0) as (t' & H).
  unfold progressOk in H. split.
  - intro Hs. apply missionState_Idle in Hs. destruct Hs as (He & _ & Hh).
    destruct (H He) as (H1 & _). destruct (H1 Hh) as (Hd & Hp).
    split; [exact Hd|].
    intros p Hsome. destruct Hp as [Hp|Hp]; rewrite Hp in Hsome.
    + discriminate Hsome.
    + injection Hsome as <-. reflexivity.
  - intro Hs. apply missionState_HittingTarget in Hs.
    destruct Hs as (He & Hc & Hh).
    destruct (H He) as (_ & H2).
    destruct (H2 Hh) as (_ & Hpos & Hp & Hlt). specialize (Hlt Hc).
    split; [lia|]. split; [exact Hp|].
    apply holdRatio_bounds. lia.
Qed.

Lemma hold_progress_while_idle_or_hitting_witness :
  nondecreasing 0
    [Click (Some cdRate); Sample (260 # 1) 0; Sample (260 # 1) 500]
  /\ missionState
       (run [Click (Some cdRate); Sample (260 # 1) 0; Sample (260 # 1) 500]
          initialStation)
     = HittingTarget
  /\ (holdRatio
        (run [Click (Some cdRate); Sample (260 # 1) 0; Sample (260 # 1) 500]
           initialStation) < 1)%Q.
Proof.
  assert (Hn : nondecreasing 0
            [Click (Some cdRate); Sample (260 # 1) 0; Sample (260 # 1) 500]).
  { cbn. lia. }
  split; [exact Hn|]. split; [reflexivity|].
  exact (proj2 (proj2 (proj2
    (proj2 (hold_progress_while_idle_or_hitting _ 0 Hn) eq_refl)))).
Defined.

(** ** The range of the pitch estimate *)

Lemma Qdiv_le_mult (a b c : Q) :
  (0 < c)%Q -> (a <= b / c)%Q -> (a * c <= b)%Q.
Proof.
  intros Hc H.
  setoid_replace b with (b / c * c)%Q.
  - apply Qmult_le_compat_r; [exact H|apply Qlt_le_weak, Hc].
  - field. intro E. rewrite E in Hc. discriminate Hc.
Qed.

Lemma Qdiv_lt_mult (a b c : Q) :
  (0 < c)%Q -> (b / c < a)%Q -> (b < a * c)%Q.
Proof.
  intros Hc H.
  setoid_replace b with (b / c * c)%Q.
  - apply Qmult_lt_compat_r; assumption.
  - field. intro E. rewrite E in Hc. discriminate Hc.
Qed.

(** A bin below [endIndex] lies below 1000 Hz. *)
Lemma binFrequency_below_end (len : nat) (sampleRate : Q) (i : nat) :
  (0 < len)%nat ->
  (0 < sampleRate)%Q ->
  (i < endIndex len sampleRate)%nat ->
  (binFrequency len sampleRate i < 1000)%Q.
Proof.
  intros Hlen Hpos Hi. unfold endIndex in Hi.
  set (E := (1000 * inject_Z (Z.of_nat len) / (sampleRate / 2))%Q) in Hi.
  assert (Hz : Z.of_nat i + 1 <= Qfloor E) by lia.
  assert (Hq : (inject_Z (Z.of_nat i + 1) <= E)%Q).
  { apply Qle_trans with (inject_Z (Qfloor E)).
    - rewrite <- Zle_Qle. exact Hz.
    - apply Qfloor_le. }
  assert (Hhalf : (0 < sampleRate / 2)%Q).
  { apply Qlt_shift_div_l; [reflexivity|]. rewrite Qmult_0_l. exact Hpos. }
  unfold E in Hq. apply (Qdiv_le_mult _ _ _ Hhalf) in Hq.
  rewrite inject_Z_plus in Hq.
  pose proof (inject_nat_positive len Hlen) as Hl.
  unfold binFrequency. apply Qlt_shift_div_r.
  - apply Qmult_lt_0_compat; [reflexivity|exact Hl].
  - set (x := inject_Z (Z.of_nat i)) in *.
    set (l := inject_Z (Z.of_nat len)) in *.
    apply Qmult_lt_r with (z := (1 # 2)%Q); [reflexivity|].
    apply Qlt_le_trans with ((x + inject_Z 1) * (sampleRate / 2))%Q.
    + setoid_replace ((x + inject_Z 1) * (sampleRate / 2))%Q
        with (x * sampleRate * (1 # 2) + sampleRate / 2)%Q by field.
      rewrite <- (Qplus_0_r (x * sampleRate * (1 # 2))) at 1.
      apply Qplus_lt_r. exact Hhalf.
    + setoid_replace (1000 * (2 * l) * (1 # 2))%Q with (1000 * l)%Q by ring.
      exact Hq.
Qed.

(** A bin from [startIndex] on lies less than one bin width below 100 Hz. *)
Lemma binFrequency_above_start (len : nat) (sampleRate : Q) (i : nat) :
  (0 < len)%nat ->
  (0 < sampleRate)%Q ->
  (startIndex len sampleRate <= i)%nat ->
  (100 < binFrequency len sampleRate (S i))%Q.
Proof.
  intros Hlen Hpos Hi. unfold startIndex in Hi.
  set (S0 := (100 * inject_Z (Z.of_nat len) / (sampleRate / 2))%Q) in Hi.
  assert (Hz : Qfloor S0 + 1 <= Z.of_nat (S i)) by lia.
  assert (Hq : (S0 < inject_Z (Z.of_nat (S i)))%Q).
  { apply Qlt_le_trans with (inject_Z (Qfloor S0 + 1)).
    - apply Qlt_floor.
    - rewrite <- Zle_Qle. exact Hz. }
  assert (Hhalf : (0 < sampleRate / 2)%Q).
  { apply Qlt_shift_div_l; [reflexivity|]. rewrite Qmult_0_l. exact Hpos. }
  unfold S0 in Hq. apply (Qdiv_lt_mult _ _ _ Hhalf) in Hq.
  pose proof (inject_nat_positive len Hlen) as Hl.
  unfold binFrequency. apply Qlt_shift_div_l.
  - apply Qmult_lt_0_compat; [reflexivity|exact Hl].
  - set (x := inject_Z (Z.of_nat (S i))) in *.
    set (l := inject_Z (Z.of_nat len)) in *.
    apply Qmult_lt_r with (z := (1 # 2)%Q); [reflexivity|].
    setoid_replace (100 * (2 * l) * (1 # 2))%Q with (100 * l)%Q by ring.
    setoid_replace (x * sampleRate * (1 # 2))%Q
      with (x * (sampleRate / 2))%Q by field.
    exact Hq.
Qed.

(** X1: for a positive sample rate the estimate of [findDominantFrequency]
    is either 0 or the frequency of a bin that lies below 1000 Hz and whose
    upper neighbour lies above 100 Hz. *)
Theorem findDominantFrequency_range
  (frequencyBins : list dB) (sampleRate : Q) :
  (0 < sampleRate)%Q ->
  findDominantFrequency frequencyBins sampleRate = 0%Q
  \/ exists i,
      findDominantFrequency frequencyBins sampleRate
      = binFrequency (List.length frequencyBins) sampleRate i
      /\ (i < List.length frequencyBins)%nat
      /\ (0 <= binFrequency (List.length frequencyBins) sampleRate i)%Q
      /\ (binFrequency (List.length frequencyBins) sampleRate i < 1000)%Q
      /\ (100 < binFrequency (List.length frequencyBins) sampleRate (S i))%Q.
Proof.
  intro Hpos.
  destruct (findDominantFrequency_cases frequencyBins sampleRate)
    as [(_ & Hz)|(_ & i & Hpeak & _ & Hres)]; [left; exact Hz|right].
  destruct Hpeak as (Hin & _). unfold searchRange, stopIndex in Hin.
  assert (Hlen : (0 < List.length frequencyBins)%nat) by lia.
  exists i. split; [exact Hres|]. split; [lia|]. split; [|split].
  - unfold binFrequency. apply Qle_shift_div_l.
    + apply Qmult_lt_0_compat; [reflexivity|].
      apply inject_nat_positive, Hlen.
    + rewrite Qmult_0_l. apply Qmult_le_0_compat.
      * change 0%Q with (inject_Z 0). rewrite <- Zle_Qle. lia.
      * apply Qlt_le_weak, Hpos.
  - apply binFrequency_below_end; auto. lia.
  - apply binFrequency_above_start; auto. lia.
Qed.

Lemma findDominantFrequency_range_witness :
  (0 < cdRate)%Q
  /\ (findDominantFrequency toneNearC cdRate = 0%Q
      \/ exists i,
          findDominantFrequency toneNearC cdRate
          = binFrequency (List.length toneNearC) cdRate i
          /\ (i < List.length toneNearC)%nat
          /\ (0 <= binFrequency (List.length toneNearC) cdRate i)%Q
          /\ (binFrequency (List.length toneNearC) cdRate i < 1000)%Q
          /\ (100 < binFrequency (List.length toneNearC) cdRate (S i))%Q).
Proof.
  split; [reflexivity|].
  apply (findDominantFrequency_range toneNearC cdRate). reflexivity.
Defined.

(** ** Safety of the event loop *)

(** X2: on a station the event loop can produce, ingesting a sample never
    raises: the current target exists whenever [checkTargetHit] looks it up,
    so a frame of a recording station is exactly what [detectTone] computes
    and the [catch] of [visualizationLoop] is never taken. *)
Theorem reachable_frame_never_raises
  (st : Station) (frequencyBins : list dB) (f : Q) (now : Z) :
  reachable st ->
  (exists st',
      ingestSample f now st = Some st'
      /\ (isRecording st = true -> frame f now st = st'))
  /\ (exists st',
         detectTone frequencyBins now st = Some st'
         /\ (isRecording st = true ->
             visualizationLoop frequencyBins now st = st')).
Proof.
  intro Hr.
  assert (H : forall g, exists st',
             ingestSample g now st = Some st'
             /\ (isRecording st = true -> frame g now st = st')).
  { intro g. unfold frame, ingestSample.
    destruct (negb (Qle_bool g 0)).
    - destruct (endlessMode st) eqn:He; cbn [negb].
      + exists st. split; [reflexivity|]. intros ->. reflexivity.
      + destruct (reachable_has_target st Hr He) as (tgt & Ht).
        rewrite (checkTargetHit_target st tgt g He Ht).
        eexists. split; [reflexivity|]. intros ->. reflexivity.
    - exists st. split; [reflexivity|]. intros ->. reflexivity. }
  split; [apply H|]. unfold detectTone, visualizationLoop. apply H.
Qed.

Lemma reachable_frame_never_raises_witness :
  reachable stationA
  /\ exists st', detectTone toneNearC 0 stationA = Some st'.
Proof.
  split; [exact reachable_stationA|].
  destruct (proj2 (reachable_frame_never_raises stationA toneNearC 0 0
                     reachable_stationA)) as (st' & H & _).
  exists st'. exact H.
Defined.



(** ** The target index *)

Lemma reachable_index_bound (st : Station) :
  reachable st -> (currentToneIndex st < 3)%nat.
Proof.
  induction 1 as [|e st Hr IH]; [cbn; lia|].
  destruct e as [f now| |mic].
  - unfold step. rewrite (proj1 (proj2 (frame_keeps f now st))). exact IH.
  - pose proof (reachable_consistent st Hr) as (_ & Hc).
    destruct st as [ctx rec rate idx hit start dur mc ct em prog ts].
    unfold pendingTimer in Hc. cbn in *.
    destruct em.
    + destruct Hc as (_ & _ & _ & ->). exact IH.
    + destruct Hc as (_ & Hct & ->). subst ct.
      destruct idx as [|[|[|idx]]], mc; cbn; lia.
  - destruct st as [ctx rec rate idx hit start dur mc ct em prog ts].
    unfold step, toggleRecording, startRecording, stopRecording. cbn in *.
    destruct rec, mc, em, mic; cbn; exact IH.
Qed.

(** X4: the target index never goes down.  A step of a station the event
    loop can produce leaves it alone or raises it by one; it is raised only
    by the timer of a completed mission, which leaves the station idle on the
    next tone, and it always stays an index of [targetTones]. *)
Theorem currentToneIndex_only_advances (e : event) (st : Station) :
  reachable st ->
  (currentToneIndex st <= currentToneIndex (step e st)
   <= S (currentToneIndex st))%nat
  /\ (currentToneIndex (step e st) < List.length targetTones)%nat
  /\ (currentToneIndex (step e st) = S (currentToneIndex st) ->
      e = Timeout
      /\ missionState st = Completed
      /\ missionState (step e st) = Idle
      /\ completedTones (step e st) = completedTones st).
Proof.
  intro Hr.
  split; [|split; [exact (reachable_index_bound _ (reachable_step e st Hr))|]].
  - destruct e as [f now| |mic].
    + unfold step. rewrite (proj1 (proj2 (frame_keeps f now st))). lia.
    + destruct st as [ctx rec rate idx hit start dur mc ct em prog ts].
      cbn. destruct ts as [|[[|] d] rest]; cbn; lia.
    + destruct st as [ctx rec rate idx hit start dur mc ct em prog ts].
      unfold step, toggleRecording, startRecording, stopRecording. cbn.
      destruct rec, mc, em, mic; cbn; lia.
  - destruct e as [f now| |mic].
    + unfold step. rewrite (proj1 (proj2 (frame_keeps f now st))). lia.
    + intro Hup. split; [reflexivity|].
      pose proof (reachable_consistent st Hr) as (_ & Hc).
      destruct st as [ctx rec rate idx hit start dur mc ct em prog ts].
      unfold pendingTimer in Hc. cbn in *.
      destruct em.
      * destruct Hc as (_ & _ & _ & ->). cbn in Hup. lia.
      * destruct Hc as (_ & Hct & ->). subst ct. revert Hup.
        destruct idx as [|[|[|idx]]], mc; cbn; intro; auto; lia.
    + destruct st as [ctx rec rate idx hit start dur mc ct em prog ts].
      unfold step, toggleRecording, startRecording, stopRecording. cbn.
      destruct rec, mc, em, mic; cbn; lia.
Qed.

Lemma currentToneIndex_only_advances_witness :
  reachable overshootStation
  /\ currentToneIndex (step Timeout overshootStation)
     = S (currentToneIndex overshootStation)
  /\ missionState (step Timeout overshootStation) = Idle.
Proof.
  assert (Hr : reachable overshootStation).
  { apply reachable_run. repeat constructor. }
  split; [exact Hr|]. split; [reflexivity|].
  exact (proj1 (proj2 (proj2
    (proj2 (proj2 (currentToneIndex_only_advances Timeout overshootStation Hr))
       eq_refl)))).
Defined.

(** ** What a completion takes *)

(** X5: a frame raises [completedTones] only when the station was already
    hitting the target of a mission that was not completed, the sample has
    signal and is within tolerance, and at least 1500 ms lie between the
    start of the hit and the sample; the hold duration it records is that
    distance.  In particular the sample that starts a hit never completes. *)
Theorem completion_needs_full_hold (st : Station) (f : Q) (now : Z) :
  completedTones (frame f now st) = S (completedTones st) ->
  isRecording st = true
  /\ isHittingTarget st = true
  /\ missionCompleted st = false
  /\ requiredHitDuration <= now - hitStartTime st
  /\ hitDuration (frame f now st) = now - hitStartTime st
  /\ (0 < f)%Q
  /\ exists tgt, getCurrentTarget st = Some tgt /\ withinTolerance tgt f.
Proof.
  unfold frame, ingestSample, checkTargetHit, getCurrentTarget.
  destruct (isRecording st) eqn:Hrec; [|intro; lia].
  destruct (Qle_bool f 0) eqn:Hf; cbn [negb]; [intro; lia|].
  apply Qle_bool_false in Hf.
  destruct (endlessMode st) eqn:He; cbn [negb]; [intro; lia|].
  destruct (nth_error targetTones (currentToneIndex st)) as [tgt|];
    [|intro; lia].
  destruct (Qle_bool (Qabs (f - frequency tgt)) tolerance) eqn:Hin.
  - apply Qle_bool_iff in Hin.
    destruct st as [ctx rec rate idx hit start dur mc ct em prog ts].
    unfold handleTargetHit, completeMission. cbn in *. subst em.
    destruct mc, hit; cbn; try (intro; lia).
    + destruct (requiredHitDuration <=? now - start) eqn:E; cbn;
        [|intro; lia].
      apply Z.leb_le in E. intros _. repeat split; auto.
      * destruct (match ct with S (S _) => true | _ => false end);
          reflexivity.
      * exists tgt. auto.
    + rewrite Z.sub_diag. cbn. intro; lia.
  - destruct st as [ctx rec rate idx hit start dur mc ct em prog ts].
    unfold handleTargetHit. cbn in *. subst em.
    destruct mc, hit; cbn; intro; lia.
Qed.

Lemma completion_needs_full_hold_witness :
  completedTones
    (frame (435 # 1) 1600 (run [Sample (435 # 1) 0] stationA))
  = S (completedTones (run [Sample (435 # 1) 0] stationA))
  /\ requiredHitDuration
     <= 1600 - hitStartTime (run [Sample (435 # 1) 0] stationA).
Proof.
  split; [reflexivity|].
  exact (proj1 (proj2 (proj2 (proj2
    (completion_needs_full_hold (run [Sample (435 # 1) 0] stationA)
       (435 # 1) 1600 eq_refl))))).
Defined.

(** ** From one mission to the next *)

Lemma run_samples_keeps (l : list (Q * Z)) (st : Station) :
  isRecording (run (samples l) st) = isRecording st
  /\ sampleRate (run (samples l) st) = sampleRate st
  /\ audioContext (run (samples l) st) = audioContext st.
Proof.
  revert st. induction l as [|s l IH]; intro st; [auto|].
  rewrite run_samples_cons.
  destruct (IH (frame (fst s) (snd s) st)) as (H1 & H2 & H3).
  destruct (frame_keeps (fst s) (snd s) st) as (_ & _ & K1 & K2 & K3).
  rewrite H1, H2, H3. auto.
Qed.

Lemma reachable_samples (l : list (Q * Z)) (st : Station) :
  reachable st -> reachable (run (samples l) st).
Proof.
  apply reachable_run.
Qed.

(** X6: a completed hold followed by its timer moves the session on.  From
    an idle, recording station the event loop can produce, a stream of
    on-target samples that spans 1500 ms and then the pending timer leave the
    station recording with no timer pending and one more completed tone; it
    is in endless mode if the mission was the third, and otherwise idle on
    the next tone with an empty hold window. *)
Theorem hold_then_timer_advances
  (st : Station) (tgt : TargetTone) (first : Q * Z) (rest : list (Q * Z)) :
  reachable st ->
  isRecording st = true ->
  missionState st = Idle ->
  getCurrentTarget st = Some tgt ->
  Forall (onTarget tgt) (first :: rest) ->
  Exists (fun s => snd first + requiredHitDuration <= snd s) rest ->
  completedTones (step Timeout (run (samples (first :: rest)) st))
  = S (currentToneIndex st)
  /\ isRecording (step Timeout (run (samples (first :: rest)) st)) = true
  /\ timers (step Timeout (run (samples (first :: rest)) st)) = []
  /\ hitDuration (step Timeout (run (samples (first :: rest)) st)) = 0
  /\ if (currentToneIndex st =? 2)%nat
     then missionState (step Timeout (run (samples (first :: rest)) st))
          = EndlessMode
     else missionState (step Timeout (run (samples (first :: rest)) st))
          = Idle
          /\ currentToneIndex
               (step Timeout (run (samples (first :: rest)) st))
             = S (currentToneIndex st).
Proof.
  intros Hreach Hr Hi Ht Hall Hex.
  inversion Hall as [|s' l' Hs Hl]; subst.
  destruct (idle_start st tgt first Hr Hi Ht Hs) as (Hh & Hn & Hidx & _).
  destruct (holding_run tgt (snd first) rest _ Hh Hl Hex)
    as (H1 & H2 & H3 & _).
  pose proof (run_samples_keeps (first :: rest) st) as (Hrec & _).
  pose proof (reachable_consistent _
                (reachable_samples (first :: rest) st Hreach)) as (_ & Hc).
  pose proof (reachable_consistent st Hreach) as (_ & Hc0).
  apply missionState_Idle in Hi. destruct Hi as (He0 & Hm0 & _).
  rewrite He0, Hm0 in Hc0. destruct Hc0 as (Hlt & Hct0 & _).
  rewrite run_samples_cons in *.
  set (s1 := run (samples rest) (frame (fst first) (snd first) st)) in *.
  apply missionState_Completed in H1. destruct H1 as (He & Hm).
  rewrite Hn in H2. rewrite Hidx in H3. rewrite Hr in Hrec.
  rewrite Hct0, Nat.add_0_r in H2.
  cbn in Hlt.
  destruct s1 as [ctx rec rate idx hit start dur mc ct em prog ts].
  unfold pendingTimer in Hc. cbn in *. subst em mc rec idx ct.
  destruct Hc as (_ & _ & ->).
  destruct (currentToneIndex st) as [|[|[|n]]]; cbn; auto 10; lia.
Qed.

Lemma hold_then_timer_advances_witness :
  reachable stationA
  /\ missionState stationA = Idle
  /\ completedTones (step Timeout (run scenarioA stationA)) = 3%nat
  /\ missionState (step Timeout (run scenarioA stationA)) = EndlessMode.
Proof.
  split; [exact reachable_stationA|]. split; [reflexivity|].
  assert (Hall : Forall
            (onTarget
               {| note := "A"; frequency := 440 # 1; color := "#45b7d1" |})
            [(435 # 1, 0); (435 # 1, 1600)]).
  { repeat constructor; vm_compute; congruence. }
  assert (Hex : Exists (fun s => 0 + requiredHitDuration <= snd s)
                  [(435 # 1, 1600)]).
  { constructor. vm_compute. congruence. }
  pose proof (hold_then_timer_advances stationA
                {| note := "A"; frequency := 440 # 1; color := "#45b7d1" |}
                (435 # 1, 0) [(435 # 1, 1600)]
                reachable_stationA eq_refl eq_refl eq_refl Hall Hex)
    as (H1 & _ & _ & _ & H5).
  split; [exact H1|exact H5].
Defined.

(** ** An interrupted hold *)

Lemma completionTime_app (es1 es2 : list event) (st : Station) :
  completionTime (es1 ++ es2) st
  = match completionTime es1 st with
    | Some t => Some t
    | None => completionTime es2 (run es1 st)
    end.
Proof.
  revert st. induction es1 as [|e es1 IH]; intro st; [reflexivity|].
  cbn [app completionTime].
  change (run (e :: es1) st) with (run es1 (step e st)).
  destruct e as [f now| |mic]; try apply IH.
  destruct (completedTones st <? completedTones (step (Sample f now) st))%nat;
    [reflexivity|apply IH].
Qed.

Lemma holding_run_short (tgt : TargetTone) (t0 : Z) (l : list (Q * Z)) :
  forall st,
    holdingSince tgt t0 st ->
    Forall (onTarget tgt) l ->
    Forall (fun s => snd s < t0 + requiredHitDuration) l ->
    holdingSince tgt t0 (run (samples l) st)
    /\ completedTones (run (samples l) st) = completedTones st
    /\ completionTime (samples l) st = None.
Proof.
  induction l as [|s l IH]; intros st Hh Hall Hshort.
  - cbn. auto.
  - inversion Hall as [|s1 l1 Hs Hl]; subst.
    inversion Hshort as [|s2 l2 Hlt Hrest]; subst.
    destruct (holding_short st tgt t0 s Hh Hs Hlt) as (Hh' & Hn & _).
    destruct (IH _ Hh' Hl Hrest) as (H1 & H2 & H3).
    rewrite run_samples_cons, completionTime_samples_cons.
    rewrite Hn, Nat.ltb_irrefl, H2, H3. auto.
Qed.

Lemma off_target_frame
  (st : Station) (tgt : TargetTone) (t0 : Z) (s : Q * Z) :
  holdingSince tgt t0 st ->
  (0 < fst s)%Q ->
  ~ withinTolerance tgt (fst s) ->
  isRecording (frame (fst s) (snd s) st) = true
  /\ missionState (frame (fst s) (snd s) st) = Idle
  /\ getCurrentTarget (frame (fst s) (snd s) st) = Some tgt
  /\ completedTones (frame (fst s) (snd s) st) = completedTones st.
Proof.
  intros (Hr & He & Hc & Hh & _ & Ht) Hf Hout.
  assert (Hb : Qle_bool (Qabs (fst s - frequency tgt)) tolerance = false).
  { apply Qle_bool_false. apply Qnot_le_lt. exact Hout. }
  rewrite (frame_ingest (fst s) (snd s) st
             (updateHitProgress 0
                (set_hitDuration 0 (set_isHittingTarget false st))) Hr).
  - rewrite missionState_Idle. unfold getCurrentTarget in *. cbn. auto.
  - rewrite (ingest_signal st tgt _ (snd s) He Ht Hf), Hb.
    rewrite (handleTargetHit_release false (snd s) st He eq_refl Hh).
    reflexivity.
Qed.

(** X7: a hold has to be unbroken.  When a stream of on-target samples that
    is still short of 1500 ms is followed by one sample with signal outside
    the tolerance, the clock starts again: the mission completes on the first
    later on-target sample that lies at least 1500 ms after the on-target
    sample that follows the interruption, and not before. *)
Theorem interrupted_hold_restarts
  (st : Station) (tgt : TargetTone)
  (a : Q * Z) (before : list (Q * Z)) (off b : Q * Z)
  (after : list (Q * Z)) :
  reachable st ->
  isRecording st = true ->
  missionState st = Idle ->
  getCurrentTarget st = Some tgt ->
  Forall (onTarget tgt) (a :: before) ->
  Forall (fun s => snd s < snd a + requiredHitDuration) before ->
  (0 < fst off)%Q ->
  ~ withinTolerance tgt (fst off) ->
  Forall (onTarget tgt) (b :: after) ->
  completionTime (samples ((a :: before) ++ off :: b :: after)) st
  = option_map snd
      (find (fun s => snd b + requiredHitDuration <=? snd s) after).
Proof.
  intros _ Hr Hi Ht Hall Hshort Hf Hout Hall2.
  inversion Hall as [|s1 l1 Ha Hbefore]; subst.
  inversion Hall2 as [|s2 l2 Hb Hafter]; subst.
  destruct (idle_start st tgt a Hr Hi Ht Ha) as (Hh & Hn & _).
  destruct (holding_run_short tgt (snd a) before _ Hh Hbefore Hshort)
    as (Hh1 & Hn1 & Hc1).
  unfold samples. rewrite map_app. fold (samples (a :: before)).
  fold (samples (off :: b :: after)).
  rewrite completionTime_app.
  rewrite completionTime_samples_cons, Hn, Nat.ltb_irrefl, Hc1.
  rewrite run_samples_cons.
  set (s1 := run (samples before) (frame (fst a) (snd a) st)) in *.
  destruct (off_target_frame s1 tgt (snd a) off Hh1 Hf Hout)
    as (Hr2 & Hi2 & Ht2 & Hn2).
  rewrite completionTime_samples_cons, Hn2, Nat.ltb_irrefl.
  set (s2 := frame (fst off) (snd off) s1) in *.
  destruct (idle_start s2 tgt b Hr2 Hi2 Ht2 Hb) as (Hh3 & Hn3 & _).
  rewrite completionTime_samples_cons, Hn3, Nat.ltb_irrefl.
  apply (holding_completionTime tgt (snd b) after _ Hh3 Hafter).
Qed.

Lemma interrupted_hold_restarts_witness :
  reachable stationA
  /\ completionTime
       (samples ([(435 # 1, 0)] ++ [(300 # 1, 800); (435 # 1, 801);
                                     (435 # 1, 1600); (435 # 1, 2301)]))
       stationA
     = Some 2301.
Proof.
  split; [exact reachable_stationA|].
  refine (interrupted_hold_restarts stationA
            {| note := "A"; frequency := 440 # 1; color := "#45b7d1" |}
            (435 # 1, 0) [] (300 # 1, 800) (435 # 1, 801)
            [(435 # 1, 1600); (435 # 1, 2301)]
            reachable_stationA eq_refl eq_refl eq_refl _ _ _ _ _).
  - repeat constructor; vm_compute; congruence.
  - constructor.
  - reflexivity.
  - unfold withinTolerance. vm_compute. intro H. apply H. reflexivity.
  - repeat constructor; vm_compute; congruence.
Defined.

(** ** The countdowns of the timer system *)
Module TimerSystemFacts.
Import TimerSystem.

Lemma fires_S (n id : nat) (ts : Timers) :
  fires (S n) id ts = intervalFires id (fires n id ts).
Proof.
  revert ts. induction n as [|n IH]; intro ts; [reflexivity|].
  cbn [fires] in *. rewrite <- IH. reflexivity.
Qed.

(** X8: the working countdown.  While the working interval is the only
    registration and [w + 1] seconds are left, each of its first [w] ticks
    takes one second off and changes nothing else; the tick after that puts
    the time at 0, clears the interval, shows the modal and registers the
    modal interval under the next free id. *)
Theorem working_countdown_opens_modal (ts : Timers) (id w : nat) :
  intervals ts = [(id, WorkingInterval)] ->
  workingTimer ts = Some id ->
  workingTime ts = Z.of_nat (S w) ->
  (forall k, (k <= w)%nat ->
     workingTime (fires k id ts) = Z.of_nat (S w) - Z.of_nat k
     /\ intervals (fires k id ts) = intervals ts
     /\ modalOverlay (fires k id ts) = modalOverlay ts
     /\ modalTime (fires k id ts) = modalTime ts)
  /\ workingTime (fires (S w) id ts) = 0
  /\ modalOverlay (fires (S w) id ts) = true
  /\ intervals (fires (S w) id ts) = [(nextIntervalId ts, ModalInterval)]
  /\ modalTimer (fires (S w) id ts) = Some (nextIntervalId ts)
  /\ modalTime (fires (S w) id ts) = modalTime ts.
Proof.
  intros Hi Ht Hw.
  assert (Hk : forall k, (k <= w)%nat ->
    workingTime (fires k id ts) = Z.of_nat (S w) - Z.of_nat k
    /\ intervals (fires k id ts) = intervals ts
    /\ modalOverlay (fires k id ts) = modalOverlay ts
    /\ modalTime (fires k id ts) = modalTime ts
    /\ workingTimer (fires k id ts) = workingTimer ts
    /\ nextIntervalId (fires k id ts) = nextIntervalId ts
    /\ modalTimer (fires k id ts) = modalTimer ts).
  { induction k as [|k IH]; intro Hle.
    - cbn [fires]. rewrite Hw. repeat split; lia.
    - destruct IH as (H1 & H2 & H3 & H4 & H5 & H6 & H7); [lia|].
      rewrite fires_S. unfold intervalFires, registered.
      rewrite H2, Hi. cbn [find fst]. rewrite Nat.eqb_refl.
      cbn [option_map snd]. unfold workingTick.
      cbn [workingTime]. rewrite H1.
      destruct (Z.of_nat (S w) - Z.of_nat k - 1 <=? 0) eqn:E;
        [apply Z.leb_le in E; lia|].
      cbn [workingTime intervals modalOverlay modalTime workingTimer
           nextIntervalId modalTimer].
      rewrite H2, H3, H4, H5, H6, H7. repeat split; auto; lia. }
  split.
  { intros k Hle. destruct (Hk k Hle) as (H1 & H2 & H3 & H4 & _). auto. }
  destruct (Hk w (Nat.le_refl w)) as (H1 & H2 & H3 & H4 & H5 & H6 & H7).
  rewrite fires_S. unfold intervalFires, registered.
  rewrite H2, Hi. cbn [find fst]. rewrite Nat.eqb_refl.
  cbn [option_map snd]. unfold workingTick.
  cbn [workingTime]. rewrite H1.
  destruct (Z.of_nat (S w) - Z.of_nat w - 1 <=? 0) eqn:E;
    [|apply Z.leb_gt in E; lia].
  cbn [workingTimer]. rewrite H5, Ht.
  unfold showModal, startModalTimer, clearInterval.
  cbn [workingTime intervals modalOverlay modalTime workingTimer
       nextIntervalId modalTimer].
  rewrite H2, Hi. cbn [filter fst]. rewrite Nat.eqb_refl. cbn [negb app].
  rewrite H6, H4. repeat split; auto; lia.
Qed.

Lemma working_countdown_opens_modal_witness :
  intervals (startWorkingTimer initialTimers) = [(1%nat, WorkingInterval)]
  /\ modalOverlay (fires 179 1 (startWorkingTimer initialTimers)) = false
  /\ modalOverlay (fires 180 1 (startWorkingTimer initialTimers)) = true.
Proof.
  split; [reflexivity|].
  destruct (working_countdown_opens_modal (startWorkingTimer initialTimers)
              1 179 eq_refl eq_refl eq_refl) as (Hk & _ & Ho & _).
  split; [|exact Ho].
  destruct (Hk 179%nat (Nat.le_refl _)) as (_ & _ & H & _). exact H.
Defined.

(** X9: the modal countdown.  While one modal interval is the only
    registration and [m + 1] seconds are left, each of its first [m] ticks
    takes one second off; the tick after that puts the time at 0, clears the
    interval and shows the request to change station, and from then on no
    interval is registered, so that nothing counts any further. *)
Theorem modal_countdown_ends (ts : Timers) (id m : nat) :
  intervals ts = [(id, ModalInterval)] ->
  modalTimer ts = Some id ->
  modalTime ts = Z.of_nat (S m) ->
  (forall k, (k <= m)%nat ->
     modalTime (fires k id ts) = Z.of_nat (S m) - Z.of_nat k
     /\ intervals (fires k id ts) = intervals ts
     /\ stationChangeMessage (fires k id ts) = stationChangeMessage ts)
  /\ modalTime (fires (S m) id ts) = 0
  /\ stationChangeMessage (fires (S m) id ts) = true
  /\ intervals (fires (S m) id ts) = []
  /\ forall id', intervalFires id' (fires (S m) id ts) = fires (S m) id ts.
Proof.
  intros Hi Ht Hm.
  assert (Hk : forall k, (k <= m)%nat ->
    modalTime (fires k id ts) = Z.of_nat (S m) - Z.of_nat k
    /\ intervals (fires k id ts) = intervals ts
    /\ stationChangeMessage (fires k id ts) = stationChangeMessage ts
    /\ modalTimer (fires k id ts) = modalTimer ts).
  { induction k as [|k IH]; intro Hle.
    - cbn [fires]. rewrite Hm. repeat split; lia.
    - destruct IH as (H1 & H2 & H3 & H4); [lia|].
      rewrite fires_S. unfold intervalFires, registered.
      rewrite H2, Hi. cbn [find fst]. rewrite Nat.eqb_refl.
      cbn [option_map snd]. unfold modalTick.
      cbn [modalTime]. rewrite H1.
      destruct (Z.of_nat (S m) - Z.of_nat k - 1 <=? 0) eqn:E;
        [apply Z.leb_le in E; lia|].
      cbn [modalTime intervals stationChangeMessage modalTimer].
      rewrite H2, H3, H4. repeat split; auto; lia. }
  split.
  { intros k Hle. destruct (Hk k Hle) as (H1 & H2 & H3 & _). auto. }
  destruct (Hk m (Nat.le_refl m)) as (H1 & H2 & H3 & H4).
  assert (Hend :
    modalTime (fires (S m) id ts) = 0
    /\ stationChangeMessage (fires (S m) id ts) = true
    /\ intervals (fires (S m) id ts) = []).
  { rewrite fires_S. unfold intervalFires, registered.
    rewrite H2, Hi. cbn [find fst]. rewrite Nat.eqb_refl.
    cbn [option_map snd]. unfold modalTick.
    cbn [modalTime]. rewrite H1.
    destruct (Z.of_nat (S m) - Z.of_nat m - 1 <=? 0) eqn:E;
      [|apply Z.leb_gt in E; lia].
    cbn [modalTimer]. rewrite H4, Ht.
    unfold showStationChangeMessage, clearInterval.
    cbn [modalTime intervals stationChangeMessage modalTimer].
    rewrite H2, Hi. cbn [filter fst]. rewrite Nat.eqb_refl. cbn [negb].
    repeat split; auto; lia. }
  destruct Hend as (E1 & E2 & E3). repeat split; auto.
  intro id'. unfold intervalFires, registered. rewrite E3. reflexivity.
Qed.

Lemma modal_countdown_ends_witness :
  intervals (showModal initialTimers) = [(1%nat, ModalInterval)]
  /\ stationChangeMessage (fires 180 1 (showModal initialTimers)) = true.
Proof.
  split; [reflexivity|].
  exact (proj1 (proj2 (proj2
    (modal_countdown_ends (showModal initialTimers) 1 179
       eq_refl eq_refl eq_refl)))).
Defined.

End TimerSystemFacts.

(** ** The barcode station *)
Module EVASimulatorFacts.
Import EVASimulator.

Lemma append_empty_r (s : string) : (s ++ "")%string = s.
Proof.
  induction s as [|c s IH]; cbn; [reflexivity|]. rewrite IH. reflexivity.
Qed.

Lemma append_assoc (a b c : string) :
  ((a ++ b) ++ c)%string = (a ++ (b ++ c))%string.
Proof.
  induction a as [|x a IH]; cbn; [reflexivity|]. rewrite IH. reflexivity.
Qed.

(** [processBarcodeInput] neither reads nor writes the variables of the
    key listener. *)
Lemma processBarcodeInput_setBuffer
  (code buffer : string) (t : Z) (s : Simulator) :
  processBarcodeInput code (setBuffer buffer t s)
  = setBuffer buffer t (processBarcodeInput code s).
Proof.
  unfold processBarcodeInput, playPentatonicNote, startWorkingTimer,
    showScannerStatus, setBuffer.
  destruct (lookupCode code); cbn;
    destruct (firstCodeScanned s), (audioContext s); reflexivity.
Qed.

Lemma setBuffer_setBuffer (b b' : string) (t t' : Z) (s : Simulator) :
  setBuffer b t (setBuffer b' t' s) = setBuffer b t s.
Proof.
  reflexivity.
Qed.

(** A burst in which no gap exceeds 100 ms extends the buffer and submits
    all of it. *)
Lemma typed_burst (tEnter : Z) (keys : list (string * Z)) :
  forall s,
    Forall (fun k => fst k <> "Enter"%string) keys ->
    withinGap (lastKeyTime s) (keys ++ [("Enter"%string, tEnter)]) ->
    typed (keys ++ [("Enter"%string, tEnter)]) s
    = setBuffer "" tEnter
        (processBarcodeInput (barcodeBuffer s ++ joined keys) s).
Proof.
  induction keys as [|k keys IH]; intros s Hne Hgap.
  - cbn in Hgap. destruct Hgap as (Hgap & _).
    cbn [app typed fold_left fst snd joined]. unfold keypress.
    destruct (100 <? tEnter - lastKeyTime s) eqn:E;
      [apply Z.ltb_lt in E; lia|].
    cbn [String.eqb Ascii.eqb Bool.eqb]. rewrite append_empty_r.
    reflexivity.
  - inversion Hne as [|k' keys' Hk Hrest]; subst.
    cbn [app withinGap] in Hgap. destruct Hgap as (Hgap & Hgaps).
    cbn [app typed fold_left]. fold (typed (keys ++ [("Enter"%string, tEnter)])).
    unfold keypress at 2.
    destruct (100 <? snd k - lastKeyTime s) eqn:E;
      [apply Z.ltb_lt in E; lia|].
    apply String.eqb_neq in Hk. rewrite Hk.
    rewrite IH; [|exact Hrest|exact Hgaps].
    cbn [barcodeBuffer lastKeyTime setBuffer joined].
    rewrite append_assoc.
    rewrite (processBarcodeInput_setBuffer _ _ _ s). reflexivity.
Qed.

(** X10: a scan is assembled from its key presses.  When the first key of a
    burst finds the buffer empty or comes more than 100 ms after the previous
    press, no key of the burst is Enter, every later press and the final
    Enter come at most 100 ms after the press before, then the station
    processes exactly the keys of the burst, in order, and is left with an
    empty buffer. *)
Theorem scan_is_assembled
  (s : Simulator) (k : string * Z) (keys : list (string * Z)) (tEnter : Z) :
  barcodeBuffer s = ""%string \/ 100 < snd k - lastKeyTime s ->
  Forall (fun k => fst k <> "Enter"%string) (k :: keys) ->
  withinGap (snd k) (keys ++ [("Enter"%string, tEnter)]) ->
  typed ((k :: keys) ++ [("Enter"%string, tEnter)]) s
  = setBuffer "" tEnter (processBarcodeInput (joined (k :: keys)) s).
Proof.
  intros Hfresh Hne Hgap.
  inversion Hne as [|k' keys' Hk Hrest]; subst.
  cbn [app typed fold_left].
  fold (typed (keys ++ [("Enter"%string, tEnter)])).
  assert (Hfirst : keypress (fst k) (snd k) s
                   = setBuffer (fst k) (snd k) s).
  { unfold keypress. apply String.eqb_neq in Hk. rewrite Hk.
    destruct (100 <? snd k - lastKeyTime s) eqn:E; [reflexivity|].
    destruct Hfresh as [Hb|Hlt]; [rewrite Hb; reflexivity|].
    apply Z.ltb_ge in E. lia. }
  rewrite Hfirst.
  rewrite typed_burst; [|exact Hrest|exact Hgap].
  cbn [barcodeBuffer setBuffer joined].
  rewrite (processBarcodeInput_setBuffer _ _ _ s). reflexivity.
Qed.

Lemma scan_is_assembled_witness :
  typed [("+"%string, 1000); ("1"%string, 1010); ("2"%string, 1020);
         ("3"%string, 1030); ("4"%string, 1040); ("5"%string, 1050);
         ("Enter"%string, 1060)] (newSimulator true 0)
  = setBuffer "" 1060 (processBarcodeInput "+12345" (newSimulator true 0)).
Proof.
  apply (scan_is_assembled (newSimulator true 0) ("+"%string, 1000)
           [("1"%string, 1010); ("2"%string, 1020); ("3"%string, 1030);
            ("4"%string, 1040); ("5"%string, 1050)] 1060).
  - left. reflexivity.
  - repeat constructor; discriminate.
  - cbn. lia.
Defined.

(** X11: Enter has to follow the last key within 100 ms.  An Enter that
    comes later submits the empty code, whatever was typed before: the
    status reads "Unbekannt: " as an error, the buffer is empty, and neither
    the timer system, the scanned code nor the tones change. *)
Theorem late_enter_submits_nothing (s : Simulator) (currentTime : Z) :
  100 < currentTime - lastKeyTime s ->
  keypress "Enter" currentTime s
  = setBuffer "" currentTime
      (showScannerStatus "Unbekannt: " StatusError s).
Proof.
  intro Hlate. unfold keypress.
  apply Z.ltb_lt in Hlate. rewrite Hlate. reflexivity.
Qed.

Lemma late_enter_submits_nothing_witness :
  100 < 1200 - lastKeyTime
                 (typed [("+"%string, 1000); ("1"%string, 1010)]
                    (newSimulator true 0))
  /\ scannerStatus
       (keypress "Enter" 1200
          (typed [("+"%string, 1000); ("1"%string, 1010)]
             (newSimulator true 0)))
     = Some ("Unbekannt: "%string, StatusError).
Proof.
  assert (H : 100 < 1200 - lastKeyTime
                (typed [("+"%string, 1000); ("1"%string, 1010)]
                   (newSimulator true 0))) by (cbn; lia).
  split; [exact H|].
  rewrite (late_enter_submits_nothing _ 1200 H). reflexivity.
Defined.

(** X12: the lookup of a code in [validCodes] also finds what the object
    inherits.  A code that is the name of a property of [Object.prototype],
    such as constructor, passes the test of [processBarcodeInput]: it is
    shown as scanned with the status "Erkannt!", the first such scan starts
    the working timer, but no tone is played. *)
Theorem inherited_name_is_accepted (code : string) (s : Simulator) :
  In code objectPrototypeKeys ->
  scannedCode (processBarcodeInput code s) = Some code
  /\ scannerStatus (processBarcodeInput code s)
     = Some ("Erkannt!"%string, StatusSuccess)
  /\ firstCodeScanned (processBarcodeInput code s) = true
  /\ tones (processBarcodeInput code s) = tones s
  /\ (firstCodeScanned s = false ->
      timers (processBarcodeInput code s)
      = TimerSystem.startWorkingTimer (timers s)).
Proof.
  intro Hin.
  assert (Hl : lookupCode code = Inherited).
  { cbn in Hin.
    repeat (destruct Hin as [<-|Hin]; [reflexivity|]). contradiction. }
  unfold processBarcodeInput, playPentatonicNote, startWorkingTimer,
    showScannerStatus.
  rewrite Hl. cbn.
  destruct (firstCodeScanned s) eqn:Hf, (audioContext s); cbn;
    repeat split; auto; intro; congruence.
Qed.

Lemma inherited_name_is_accepted_witness :
  In "constructor"%string objectPrototypeKeys
  /\ scannerStatus (processBarcodeInput "constructor" (newSimulator true 0))
     = Some ("Erkannt!"%string, StatusSuccess).
Proof.
  assert (H : In "constructor"%string objectPrototypeKeys)
    by (left; reflexivity).
  split; [exact H|].
  exact (proj1 (proj2
    (inherited_name_is_accepted "constructor" (newSimulator true 0) H))).
Defined.






End EVASimulatorFacts.

(** ** The memory game: the deck *)
Module MemoryGameFacts.
Import MemoryGame.

Lemma assign_length {A : Type} (i : nat) (x : A) (l : list A) :
  List.length (assign i x l) = List.length l.
Proof.
  revert i. induction l as [|y l IH]; intros [|i]; cbn; auto.
Qed.

(** Taking the element at [j] out to the front and putting [h] in its
    place. *)
Lemma assign_permutation {A : Type} (h y : A) (j : nat) (t : list A) :
  nth_error t j = Some y ->
  Permutation (h :: t) (y :: assign j h t).
Proof.
  revert j. induction t as [|z t IH]; intros [|j] Hj; cbn in Hj;
    try discriminate.
  - injection Hj as ->. cbn. apply perm_swap.
  - cbn. apply perm_trans with (z :: h :: t); [apply perm_swap|].
    apply perm_trans with (z :: y :: assign j h t);
      [apply perm_skip, IH, Hj|apply perm_swap].
Qed.

Lemma swap_permutation {A : Type} (i j : nat) (a : list A) :
  Permutation a (swap i j a).
Proof.
  unfold swap.
  destruct (nth_error a i) as [x|] eqn:Hi; [|apply Permutation_refl].
  destruct (nth_error a j) as [y|] eqn:Hj; [|apply Permutation_refl].
  revert i j Hi Hj. induction a as [|h t IH]; intros [|i] [|j] Hi Hj;
    cbn in Hi, Hj; try discriminate; cbn.
  - injection Hi as ->. injection Hj as ->. apply Permutation_refl.
  - injection Hi as ->. apply assign_permutation, Hj.
  - injection Hj as ->. apply assign_permutation, Hi.
  - apply perm_skip, IH; assumption.
Qed.

Lemma shuffleFrom_permutation {A : Type} (random : nat -> Q) (i : nat) :
  forall calls (a : list A),
    Permutation a (shuffleFrom random calls i a).
Proof.
  induction i as [|i IH]; intros calls a; cbn [shuffleFrom].
  - apply Permutation_refl.
  - apply perm_trans with (swap (S i) (pick (random calls) (S i)) a).
    + apply swap_permutation.
    + apply IH.
Qed.

(** The index drawn for position [i] is one of [0 .. i]. *)
Lemma pick_le (r : Q) (i : nat) :
  (0 <= r)%Q -> (r < 1)%Q -> (pick r i <= i)%nat.
Proof.
  intros H0 H1. unfold pick.
  assert (Hpos : (0 < inject_Z (Z.of_nat i + 1))%Q).
  { change 0%Q with (inject_Z 0). rewrite <- Zlt_Qlt. lia. }
  assert (Hlt : (r * inject_Z (Z.of_nat i + 1)
                 < inject_Z (Z.of_nat i + 1))%Q).
  { rewrite <- (Qmult_1_l (inject_Z (Z.of_nat i + 1))) at 2.
    apply Qmult_lt_compat_r; assumption. }
  assert (Hfl : Qfloor (r * inject_Z (Z.of_nat i + 1)) < Z.of_nat i + 1).
  { rewrite Zlt_Qlt.
    apply Qle_lt_trans with (r * inject_Z (Z.of_nat i + 1))%Q;
      [apply Qfloor_le|exact Hlt]. }
  lia.
Qed.

(** X14: [shuffleArray] returns a rearrangement of its argument: for every
    sequence of values of [Math.random()] the result has the same elements
    with the same multiplicities, hence the same length, and every index it
    draws for position [i] is at most [i]. *)
Theorem shuffleArray_permutes
  {A : Type} (random : nat -> Q) (array : list A) :
  fair random ->
  Permutation array (shuffleArray random array)
  /\ List.length (shuffleArray random array) = List.length array
  /\ forall calls i, (pick (random calls) i <= i)%nat.
Proof.
  intro Hfair.
  assert (Hp : Permutation array (shuffleArray random array))
    by apply shuffleFrom_permutation.
  split; [exact Hp|]. split.
  - symmetry. apply Permutation_length, Hp.
  - intros calls i. destruct (Hfair calls) as (H0 & H1).
    apply pick_le; assumption.
Qed.

Lemma shuffleArray_permutes_witness :
  fair (fun k => (1 # 2) * (1 # Pos.of_succ_nat k))%Q
  /\ List.length
       (shuffleArray (fun k => (1 # 2) * (1 # Pos.of_succ_nat k))%Q
          [1; 2; 3; 4; 5])
     = 5%nat.
Proof.
  assert (Hf : fair (fun k => (1 # 2) * (1 # Pos.of_succ_nat k))%Q).
  { intro k. unfold Qle, Qlt. cbn. lia. }
  split; [exact Hf|].
  exact (proj1 (proj2 (shuffleArray_permutes _ [1; 2; 3; 4; 5] Hf))).
Defined.

Lemma onCard_map {B : Type} (p : Card -> B) (i : nat) (f : Card -> Card)
  (cards : list Card) :
  (forall c, p (f c) = p c) ->
  map p (onCard i f cards) = map p cards.
Proof.
  intro Hf. revert i. induction cards as [|c cards IH]; intros [|i]; cbn;
    rewrite ?Hf, ?IH; reflexivity.
Qed.

Lemma onCard_length (i : nat) (f : Card -> Card) (cards : list Card) :
  List.length (onCard i f cards) = List.length cards.
Proof.
  revert i. induction cards as [|c cards IH]; intros [|i]; cbn; auto.
Qed.

(** [updateSelectedCard] only moves the class [selected]. *)
Lemma updateSelectedCard_map {B : Type} (p : Card -> B) (g : Game) :
  (forall b c, p (setSelected b c) = p c) ->
  map p (grid (updateSelectedCard g)) = map p (grid g).
Proof.
  intro Hp.
  assert (Hc : map p (map (setSelected false) (grid g)) = map p (grid g)).
  { rewrite map_map. apply map_ext. intro c. apply Hp. }
  unfold updateSelectedCard.
  destruct (cardAt (currentIndex g) (map (setSelected false) (grid g)))
    as [c|]; [destruct (negb (matched c))|]; cbn [grid setGrid];
    rewrite ?onCard_map; auto.
Qed.

Lemma updateSelectedCard_keeps (g : Game) :
  currentPosition (updateSelectedCard g) = currentPosition g
  /\ flippedCards (updateSelectedCard g) = flippedCards g
  /\ matchedPairs (updateSelectedCard g) = matchedPairs g
  /\ totalPairs (updateSelectedCard g) = totalPairs g
  /\ isProcessing (updateSelectedCard g) = isProcessing g
  /\ timerStarted (updateSelectedCard g) = timerStarted g
  /\ timers (updateSelectedCard g) = timers g
  /\ sleeping (updateSelectedCard g) = sleeping g
  /\ List.length (grid (updateSelectedCard g)) = List.length (grid g).
Proof.
  assert (Hl : List.length (grid (updateSelectedCard g))
               = List.length (grid g)).
  { rewrite <- (length_map symbol), (updateSelectedCard_map symbol),
      length_map; reflexivity. }
  unfold updateSelectedCard in *.
  destruct (cardAt (currentIndex g) (map (setSelected false) (grid g)))
    as [c|]; [destruct (negb (matched c))|]; cbn in *; auto 10.
Qed.

(** X15: the deck.  Whatever [Math.random()] returns, the constructor lays
    out 25 cards whose symbols are a rearrangement of the twelve symbols
    taken twice and the joker: every symbol is on exactly two cards and the
    joker on exactly one, and no card is flipped or matched. *)
Theorem newGame_deck (random : nat -> Q) :
  fair random ->
  Permutation (cardSymbols ++ cardSymbols ++ [jokerSymbol])
    (map symbol (grid (newGame random)))
  /\ List.length (grid (newGame random)) = 25%nat
  /\ count_occ string_dec (map symbol (grid (newGame random))) jokerSymbol
     = 1%nat
  /\ (forall s, In s cardSymbols ->
        count_occ string_dec (map symbol (grid (newGame random))) s = 2%nat)
  /\ map flipped (grid (newGame random)) = repeat false 25
  /\ map matched (grid (newGame random)) = repeat false 25.
Proof.
  intros _. unfold newGame, dealt.
  set (deck := cardSymbols ++ cardSymbols ++ [jokerSymbol]).
  assert (Hp : Permutation deck (shuffleArray random deck))
    by apply shuffleFrom_permutation.
  assert (Hl : List.length (shuffleArray random deck) = 25%nat).
  { rewrite <- (Permutation_length Hp). reflexivity. }
  assert (Hs : forall cards,
    map symbol (map newCard cards) = cards).
  { intro cards. rewrite map_map. apply map_id. }
  assert (Hflags : forall (p : Card -> bool) cards,
    (forall s, p (newCard s) = false) ->
    map p (map newCard cards) = repeat false (List.length cards)).
  { intros p cards Hpf. induction cards as [|c cards IH]; cbn;
      rewrite ?Hpf, ?IH; reflexivity. }
  rewrite (updateSelectedCard_map symbol), (updateSelectedCard_map flipped),
    (updateSelectedCard_map matched) by reflexivity.
  cbn [grid]. rewrite Hs.
  rewrite !Hflags, Hl by reflexivity.
  assert (Hcount : forall x,
    count_occ string_dec (shuffleArray random deck) x
    = count_occ string_dec deck x).
  { intro x. symmetry. apply Permutation_count_occ, Hp. }
  split; [exact Hp|]. split.
  { rewrite <- (length_map symbol), (updateSelectedCard_map symbol)
      by reflexivity.
    cbn [grid]. rewrite Hs. exact Hl. }
  split; [rewrite Hcount; reflexivity|].
  split; [|split; reflexivity].
  intros s Hin. rewrite Hcount. cbn in Hin.
  repeat (destruct Hin as [<-|Hin]; [reflexivity|]). contradiction.
Qed.

Lemma newGame_deck_witness :
  fair (fun _ => 0%Q)
  /\ List.length (grid (newGame (fun _ => 0%Q))) = 25%nat.
Proof.
  assert (Hf : fair (fun _ => 0%Q)).
  { intro k. split; [apply Qle_refl|reflexivity]. }
  split; [exact Hf|].
  exact (proj1 (proj2 (newGame_deck _ Hf))).
Defined.

(** ** The memory game: the cursor *)

(** X16: the cursor moves by one field and stays on the 5 x 5 grid.  A move
    that would leave the grid changes nothing at all; a move that stays on
    it puts the cursor on the new field, from which the opposite move leads
    back to where it was. *)
Theorem moveSelection_on_grid (rowDelta colDelta : Z) (g : Game) :
  onGrid (currentPosition g) ->
  onGrid (currentPosition (moveSelection rowDelta colDelta g))
  /\ (~ onGrid {| row := row (currentPosition g) + rowDelta;
                  col := col (currentPosition g) + colDelta |} ->
      moveSelection rowDelta colDelta g = g)
  /\ (onGrid {| row := row (currentPosition g) + rowDelta;
                col := col (currentPosition g) + colDelta |} ->
      currentPosition (moveSelection rowDelta colDelta g)
      = {| row := row (currentPosition g) + rowDelta;
           col := col (currentPosition g) + colDelta |}
      /\ currentPosition
           (moveSelection (- rowDelta) (- colDelta)
              (moveSelection rowDelta colDelta g))
         = currentPosition g).
Proof.
  intro Hon. unfold onGrid in *. cbn [row col].
  assert (Hm : forall dr dc h,
    0 <= row (currentPosition h) + dr < 5
    /\ 0 <= col (currentPosition h) + dc < 5 ->
    currentPosition (moveSelection dr dc h)
    = {| row := row (currentPosition h) + dr;
         col := col (currentPosition h) + dc |}).
  { intros dr dc h (Hr & Hc). unfold moveSelection.
    destruct ((0 <=? row (currentPosition h) + dr)
              && (row (currentPosition h) + dr <? 5)
              && (0 <=? col (currentPosition h) + dc)
              && (col (currentPosition h) + dc <? 5)) eqn:E.
    - rewrite (proj1 (updateSelectedCard_keeps _)). reflexivity.
    - rewrite !andb_false_iff in E.
      rewrite Z.leb_gt, Z.ltb_ge, Z.leb_gt, Z.ltb_ge in E. lia. }
  assert (Hout :
    ~ (0 <= row (currentPosition g) + rowDelta < 5
       /\ 0 <= col (currentPosition g) + colDelta < 5) ->
    moveSelection rowDelta colDelta g = g).
  { intro Hn. unfold moveSelection.
    destruct ((0 <=? row (currentPosition g) + rowDelta)
              && (row (currentPosition g) + rowDelta <? 5)
              && (0 <=? col (currentPosition g) + colDelta)
              && (col (currentPosition g) + colDelta <? 5)) eqn:E;
      [|reflexivity].
    rewrite !andb_true_iff in E.
    rewrite !Z.leb_le, !Z.ltb_lt in E. exfalso. apply Hn. lia. }
  split; [|split].
  - destruct (Z_le_dec 0 (row (currentPosition g) + rowDelta)) as [H1|H1];
      [destruct (Z_lt_dec (row (currentPosition g) + rowDelta) 5) as [H2|H2];
       [destruct (Z_le_dec 0 (col (currentPosition g) + colDelta)) as [H3|H3];
        [destruct (Z_lt_dec (col (currentPosition g) + colDelta) 5)
           as [H4|H4]
        |]|]|];
      try (rewrite Hout; [exact Hon|lia]).
    rewrite Hm by lia. cbn. lia.
  - exact Hout.
  - intro Hnew. split; [apply Hm, Hnew|].
    rewrite Hm; rewrite (Hm rowDelta colDelta g Hnew); cbn [row col].
    + destruct (currentPosition g) as [r c]. cbn. f_equal; lia.
    + lia.
Qed.

Lemma moveSelection_on_grid_witness :
  onGrid (currentPosition (newGame (fun _ => 0%Q)))
  /\ moveSelection (-1) 0 (newGame (fun _ => 0%Q))
     = newGame (fun _ => 0%Q)
  /\ currentPosition (moveSelection 0 1 (newGame (fun _ => 0%Q)))
     = {| row := 0; col := 1 |}.
Proof.
  assert (Hon : onGrid (currentPosition (newGame (fun _ => 0%Q)))).
  { vm_compute. repeat split; congruence. }
  split; [exact Hon|]. split.
  - apply (proj1 (proj2 (moveSelection_on_grid (-1) 0 _ Hon))).
    vm_compute. intros ((H & _) & _). apply H. reflexivity.
  - apply (proj2 (proj2 (moveSelection_on_grid 0 1 _ Hon))).
    vm_compute. repeat split; congruence.
Defined.

(** ** The memory game: the board *)

Lemma onCard_assign {B : Type} (p : Card -> B) (v : B) (i : nat)
  (f : Card -> Card) (cards : list Card) :
  (forall c, p (f c) = v) ->
  map p (onCard i f cards) = assign i v (map p cards).
Proof.
  intro Hf. revert i. induction cards as [|c cards IH]; intros [|i]; cbn;
    rewrite ?Hf, ?IH; reflexivity.
Qed.

Lemma nth_error_assign_same {A : Type} (i : nat) (x y : A) (l : list A) :
  nth_error l i = Some y -> nth_error (assign i x l) i = Some x.
Proof.
  revert i. induction l as [|z l IH]; intros [|i] H; cbn in *;
    try discriminate; auto.
Qed.

Lemma nth_error_assign_other {A : Type} (i j : nat) (x : A) (l : list A) :
  i <> j -> nth_error (assign i x l) j = nth_error l j.
Proof.
  revert i j. induction l as [|z l IH]; intros [|i] [|j] H; cbn;
    try reflexivity; try congruence.
  apply IH. congruence.
Qed.

Lemma matchedCards_map (cards : list Card) :
  matchedCards cards = count_occ bool_dec (map matched cards) true.
Proof.
  unfold matchedCards. induction cards as [|c cards IH]; cbn; [reflexivity|].
  destruct (matched c); cbn; rewrite IH; reflexivity.
Qed.

Lemma count_assign_true (i : nat) (l : list bool) :
  nth_error l i = Some false ->
  count_occ bool_dec (assign i true l) true
  = S (count_occ bool_dec l true).
Proof.
  revert i. induction l as [|b l IH]; intros [|i] H; cbn in H;
    try discriminate.
  - injection H as ->. reflexivity.
  - cbn [assign count_occ]. destruct (bool_dec b true); rewrite (IH i H);
      reflexivity.
Qed.

(** The invariant only looks at the classes [flipped] and [matched]. *)
Lemma consistent_ext (g g' : Game) :
  onGrid (currentPosition g') ->
  map flipped (grid g') = map flipped (grid g) ->
  map matched (grid g') = map matched (grid g) ->
  flippedCards g' = flippedCards g ->
  matchedPairs g' = matchedPairs g ->
  totalPairs g' = totalPairs g ->
  isProcessing g' = isProcessing g ->
  sleeping g' = sleeping g ->
  consistent g -> consistent g'.
Proof.
  intros Hon Hf Hm Hfc Hmp Htp Hip Hsl (_ & Hl & Ht & Hc & Hphase).
  unfold consistent, faceUp in *.
  rewrite Hf, Hm, Hfc, Hmp, Htp, Hip, Hsl, matchedCards_map, Hm,
    <- matchedCards_map.
  split; [exact Hon|]. split; [|auto].
  rewrite <- (length_map matched (grid g')), Hm, length_map. exact Hl.
Qed.

Lemma consistent_updateSelectedCard (g : Game) :
  consistent g -> consistent (updateSelectedCard g).
Proof.
  intro H.
  destruct (updateSelectedCard_keeps g)
    as (H1 & H2 & H3 & H4 & H5 & H6 & H7 & H8 & H9).
  apply (consistent_ext g); auto.
  - rewrite H1. apply H.
  - apply updateSelectedCard_map. reflexivity.
  - apply updateSelectedCard_map. reflexivity.
Qed.

Lemma consistent_moveSelection (rowDelta colDelta : Z) (g : Game) :
  consistent g -> consistent (moveSelection rowDelta colDelta g).
Proof.
  intro H. unfold moveSelection.
  destruct ((0 <=? row (currentPosition g) + rowDelta)
            && (row (currentPosition g) + rowDelta <? 5)
            && (0 <=? col (currentPosition g) + colDelta)
            && (col (currentPosition g) + colDelta <? 5)) eqn:E;
    [|exact H].
  apply consistent_updateSelectedCard.
  apply (consistent_ext g); auto.
  rewrite !andb_true_iff in E. rewrite !Z.leb_le, !Z.ltb_lt in E.
  unfold onGrid. cbn. lia.
Qed.

Lemma consistent_handleKeyPress (key : string) (g : Game) :
  consistent g -> consistent (handleKeyPress key g).
Proof.
  intro H. unfold handleKeyPress.
  destruct (isProcessing g); [exact H|].
  repeat match goal with
    | |- context [if ?c then _ else _] => destruct c
    end;
    try apply consistent_moveSelection; exact H.
Qed.

(** While nothing is processed no [sleep] is pending. *)
Lemma consistent_idle (g : Game) :
  consistent g ->
  isProcessing g = false ->
  sleeping g = None
  /\ (flippedCards g = [] \/ exists i, flippedCards g = [i] /\ faceUp g i).
Proof.
  intros (_ & _ & _ & _ & Hphase) Hp.
  destruct (sleeping g) as [[i1 i2|i1 i2|]|].
  - destruct Hphase as (Hp' & _). congruence.
  - destruct Hphase as (Hp' & _). congruence.
  - destruct Hphase as (Hp' & _). congruence.
  - destruct Hphase as (_ & H). auto.
Qed.

Lemma cardAt_nth (i : Z) (cards : list Card) (c : Card) :
  cardAt i cards = Some c -> nth_error cards (Z.to_nat i) = Some c.
Proof.
  unfold cardAt. destruct (i <? 0); [discriminate|auto].
Qed.

Lemma nth_error_onCard_same (i : nat) (f : Card -> Card)
  (cards : list Card) (c : Card) :
  nth_error cards i = Some c ->
  nth_error (onCard i f cards) i = Some (f c).
Proof.
  revert i. induction cards as [|d cards IH]; intros [|i] H; cbn in *;
    try discriminate; auto.
  injection H as ->. reflexivity.
Qed.

Lemma nth_error_onCard_other (i j : nat) (f : Card -> Card)
  (cards : list Card) :
  i <> j -> nth_error (onCard i f cards) j = nth_error cards j.
Proof.
  revert i j. induction cards as [|d cards IH]; intros [|i] [|j] H; cbn;
    try reflexivity; try congruence.
  apply IH. congruence.
Qed.

(** A flag of the card with index [i], read off the board. *)
Lemma flag_at (p : Card -> bool) (cards : list Card) (i : nat) (b : bool) :
  nth_error (map p cards) i = Some b ->
  exists c, nth_error cards i = Some c /\ p c = b.
Proof.
  rewrite nth_error_map. destruct (nth_error cards i) as [c|]; cbn;
    [|discriminate].
  intro H. injection H as <-. eauto.
Qed.

Lemma flag_of (p : Card -> bool) (cards : list Card) (i : nat) (c : Card) :
  nth_error cards i = Some c ->
  nth_error (map p cards) i = Some (p c).
Proof.
  intro H. rewrite nth_error_map, H. reflexivity.
Qed.

Lemma consistent_confirmSelection (g : Game) :
  consistent g -> consistent (confirmSelection g).
Proof.
  intro H. unfold confirmSelection.
  destruct (isProcessing g) eqn:Hp; [exact H|].
  set (g1 := if negb (timerStarted g) then _ else g).
  assert (H1 : consistent g1 /\ isProcessing g1 = false).
  { unfold g1. destruct (timerStarted g); cbn [negb]; [auto|].
    split; [|reflexivity].
    apply (consistent_ext g); auto. apply H. }
  clearbody g1. clear H Hp g. destruct H1 as (H & Hp).
  destruct (cardAt (currentIndex g1) (grid g1)) as [c|] eqn:Hc; [|exact H].
  destruct (matched c || flipped c) eqn:Hmf; [exact H|].
  apply orb_false_iff in Hmf. destruct Hmf as (Hcm & Hcf).
  apply cardAt_nth in Hc.
  set (idx := Z.to_nat (currentIndex g1)) in *.
  destruct (consistent_idle g1 H Hp) as (Hs & Hfc).
  destruct H as (Hon & Hl & Ht & Hcount & _).
  assert (Hflip :
    map flipped (onCard idx (setFlipped true) (grid g1))
    = assign idx true (map flipped (grid g1)))
    by (apply onCard_assign; reflexivity).
  assert (Hmat :
    map matched (onCard idx (setFlipped true) (grid g1))
    = map matched (grid g1))
    by (apply onCard_map; reflexivity).
  assert (Hup : nth_error (assign idx true (map flipped (grid g1))) idx
                = Some true).
  { apply nth_error_assign_same with (y := flipped c).
    apply flag_of, Hc. }
  assert (Hun : nth_error (map matched (grid g1)) idx = Some false).
  { rewrite (flag_of matched _ _ _ Hc), Hcm. reflexivity. }
  destruct Hfc as [Hfc|(i1 & Hfc & Hf1 & Hm1)]; rewrite Hfc;
    cbn [app List.length Nat.eqb flippedCards].
  - unfold consistent, faceUp.
    cbn [currentPosition grid flippedCards matchedPairs totalPairs
         isProcessing sleeping].
    rewrite Hs, onCard_length, matchedCards_map, Hmat, <- matchedCards_map,
      Hflip.
    repeat split; auto; try apply Hon. right. exists idx. auto.
  - assert (Hne : i1 <> idx).
    { intro E. subst i1. rewrite (flag_of flipped _ _ _ Hc), Hcf in Hf1.
      discriminate Hf1. }
    destruct (flag_at flipped _ _ _ Hf1) as (c1 & Hc1 & _).
    unfold checkMatch.
    cbn [currentPosition grid flippedCards matchedPairs totalPairs
         isProcessing sleeping].
    rewrite (nth_error_onCard_other idx i1 _ _ (not_eq_sym Hne)), Hc1.
    rewrite (nth_error_onCard_same idx _ _ c Hc).
    assert (Hf1' : nth_error (assign idx true (map flipped (grid g1))) i1
                   = Some true).
    { rewrite nth_error_assign_other; auto. }
    destruct (String.eqb (symbol c1) jokerSymbol
              || String.eqb (symbol (setFlipped true c)) jokerSymbol
              || String.eqb (symbol c1) (symbol (setFlipped true c)));
      unfold consistent, faceUp, setSleeping, setGrid;
      cbn [currentPosition grid flippedCards matchedPairs totalPairs
           isProcessing sleeping].
    + rewrite onCard_length, matchedCards_map, Hmat, <- matchedCards_map,
        Hflip.
      repeat split; auto; apply Hon.
    + rewrite !onCard_length, matchedCards_map.
      rewrite !(onCard_map matched) by reflexivity.
      rewrite !(onCard_map flipped _ (setWrong true)) by reflexivity.
      rewrite <- matchedCards_map, Hflip.
      repeat split; auto; apply Hon.
Qed.

Lemma consistent_finishCheckMatch (g : Game) :
  onGrid (currentPosition g) ->
  List.length (grid g) = 25%nat ->
  totalPairs g = 12%nat ->
  matchedCards (grid g) = (2 * matchedPairs g)%nat ->
  consistent (finishCheckMatch g).
Proof.
  intros Hon Hl Ht Hc. unfold finishCheckMatch.
  apply consistent_updateSelectedCard.
  unfold consistent. cbn. auto 10.
Qed.

Lemma consistent_wake (g : Game) :
  consistent g -> consistent (wake g).
Proof.
  intro H. unfold wake.
  destruct (sleeping g) as [[i1 i2|i1 i2|]|] eqn:Hs; [| | |exact H];
    destruct H as (Hon & Hl & Ht & Hc & Hphase); rewrite Hs in Hphase.
  - destruct Hphase as (Hp & Hfc & Hne & (Hf1 & Hm1) & (Hf2 & Hm2)).
    unfold afterMatchSleep.
    set (F := fun c => setFlipped false (setMatched true c)).
    assert (Hmat :
      map matched (onCard i2 F (onCard i1 F (grid g)))
      = assign i2 true (assign i1 true (map matched (grid g)))).
    { rewrite !(onCard_assign matched true) by reflexivity. reflexivity. }
    assert (Hcount :
      matchedCards (onCard i2 F (onCard i1 F (grid g)))
      = (2 * S (matchedPairs g))%nat).
    { rewrite matchedCards_map, Hmat.
      rewrite count_assign_true.
      - rewrite count_assign_true by exact Hm1.
        rewrite <- matchedCards_map, Hc. lia.
      - rewrite nth_error_assign_other by exact Hne. exact Hm2. }
    cbn [matchedPairs totalPairs].
    destruct (S (matchedPairs g) =? totalPairs g)%nat.
    + unfold consistent, setSleeping, setTimers.
      cbn [currentPosition grid flippedCards matchedPairs totalPairs
           isProcessing sleeping].
      rewrite !onCard_length, Hfc. auto 10.
    + apply consistent_finishCheckMatch;
        cbn [currentPosition grid matchedPairs totalPairs];
        rewrite ?onCard_length; auto.
  - destruct Hphase as (Hp & Hfc & Hne & _).
    unfold afterMismatchSleep.
    apply consistent_finishCheckMatch; unfold setGrid;
      cbn [currentPosition grid matchedPairs totalPairs];
      rewrite ?onCard_length; auto.
    rewrite matchedCards_map, !(onCard_map matched) by reflexivity.
    rewrite <- matchedCards_map. exact Hc.
  - unfold afterGameWonSleep.
    apply consistent_finishCheckMatch; unfold setTimers;
      cbn [currentPosition grid matchedPairs totalPairs]; auto.
Qed.

Lemma game_consistent_step (e : event) (g : Game) :
  consistent g -> consistent (step e g).
Proof.
  intro H. destruct e as [key| | |id]; unfold step.
  - apply consistent_handleKeyPress, H.
  - apply consistent_confirmSelection, H.
  - apply consistent_wake, H.
  - apply (consistent_ext g); auto. apply H.
Qed.

Lemma matchedCards_newCards (cards : list string) :
  matchedCards (map newCard cards) = 0%nat.
Proof.
  unfold matchedCards. induction cards as [|s cards IH]; cbn; auto.
Qed.

Lemma consistent_newGame (random : nat -> Q) : consistent (newGame random).
Proof.
  unfold newGame, dealt. apply consistent_updateSelectedCard.
  unfold consistent.
  cbn [currentPosition grid flippedCards matchedPairs totalPairs
       isProcessing sleeping].
  rewrite length_map, matchedCards_newCards.
  repeat split; auto; try (cbn; lia).
  unfold shuffleArray.
  rewrite <- (Permutation_length (shuffleFrom_permutation random _ 0 _)).
  reflexivity.
Qed.

Lemma game_reachable_consistent (g : Game) : reachable g -> consistent g.
Proof.
  induction 1 as [random _|e g _ IH].
  - apply consistent_newGame.
  - apply game_consistent_step, IH.
Qed.

Lemma matchedCards_le (cards : list Card) :
  (matchedCards cards <= List.length cards)%nat.
Proof.
  unfold matchedCards. apply filter_length_le.
Qed.

(** X17: the pairs are counted right.  In every state the game can get
    into there are 25 cards, exactly two of them carry the class [matched]
    for every pair counted in [matchedPairs], and the count never exceeds
    [totalPairs], which is 12; a [sleep] is pending exactly while
    [isProcessing] is set, and never more than two cards are listed as
    flipped. *)
Theorem pairs_are_counted (g : Game) :
  reachable g ->
  List.length (grid g) = 25%nat
  /\ matchedCards (grid g) = (2 * matchedPairs g)%nat
  /\ (matchedPairs g <= totalPairs g)%nat
  /\ totalPairs g = 12%nat
  /\ (isProcessing g = true <-> sleeping g <> None)
  /\ (List.length (flippedCards g) <= 2)%nat.
Proof.
  intro Hr. destruct (game_reachable_consistent g Hr)
    as (_ & Hl & Ht & Hc & Hphase).
  pose proof (matchedCards_le (grid g)) as Hle.
  rewrite Hl, Hc in Hle.
  split; [exact Hl|]. split; [exact Hc|]. split; [lia|].
  split; [exact Ht|].
  destruct (sleeping g) as [[i1 i2|i1 i2|]|].
  - destruct Hphase as (Hp & -> & _). cbn.
    split; [|lia]. split; [discriminate|auto].
  - destruct Hphase as (Hp & -> & _). cbn.
    split; [|lia]. split; [discriminate|auto].
  - destruct Hphase as (Hp & Hlen). rewrite Hlen.
    split; [|lia]. split; [discriminate|auto].
  - destruct Hphase as (Hp & Hfc).
    split; [split; [congruence|intro H; contradiction]|].
    destruct Hfc as [->|(i & -> & _)]; cbn; lia.
Qed.

Lemma pairs_are_counted_witness :
  reachable (run [ConfirmClick; KeyDown "ArrowRight"; ConfirmClick]
               (newGame (fun _ => 0%Q)))
  /\ (matchedPairs
        (run [ConfirmClick; KeyDown "ArrowRight"; ConfirmClick]
           (newGame (fun _ => 0%Q)))
      <= totalPairs
           (run [ConfirmClick; KeyDown "ArrowRight"; ConfirmClick]
              (newGame (fun _ => 0%Q))))%nat.
Proof.
  assert (Hr : reachable
                 (run [ConfirmClick; KeyDown "ArrowRight"; ConfirmClick]
                    (newGame (fun _ => 0%Q)))).
  { cbn [run fold_left]. do 3 apply reachable_step.
    apply reachable_new. intro k.
    split; [apply Qle_refl|reflexivity]. }
  split; [exact Hr|].
  exact (proj1 (proj2 (proj2 (pairs_are_counted _ Hr)))).
Defined.

(** X18: the cursor is always on a card.  In every state the game can get
    into the cursor is on the 5 x 5 grid, its index [row * 5 + col] is
    between 0 and 24, and the card with that index exists, so that
    [confirmSelection] never leaves for want of a card. *)
Theorem cursor_is_on_a_card (g : Game) :
  reachable g ->
  onGrid (currentPosition g)
  /\ 0 <= currentIndex g < 25
  /\ exists c, cardAt (currentIndex g) (grid g) = Some c.
Proof.
  intro Hr. destruct (game_reachable_consistent g Hr) as (Hon & Hl & _).
  assert (Hidx : 0 <= currentIndex g < 25).
  { unfold currentIndex. unfold onGrid in Hon. lia. }
  split; [exact Hon|]. split; [exact Hidx|].
  unfold cardAt. destruct (currentIndex g <? 0) eqn:E;
    [apply Z.ltb_lt in E; lia|].
  destruct (nth_error (grid g) (Z.to_nat (currentIndex g))) as [c|] eqn:Hn;
    [eauto|].
  apply nth_error_None in Hn. lia.
Qed.

Lemma cursor_is_on_a_card_witness :
  reachable (run [KeyDown "ArrowDown"; KeyDown "ArrowLeft"]
               (newGame (fun _ => 0%Q)))
  /\ 0 <= currentIndex
            (run [KeyDown "ArrowDown"; KeyDown "ArrowLeft"]
               (newGame (fun _ => 0%Q))) < 25.
Proof.
  assert (Hr : reachable
                 (run [KeyDown "ArrowDown"; KeyDown "ArrowLeft"]
                    (newGame (fun _ => 0%Q)))).
  { cbn [run fold_left]. do 2 apply reachable_step.
    apply reachable_new. intro k.
    split; [apply Qle_refl|reflexivity]. }
  split; [exact Hr|].
  exact (proj1 (proj2 (cursor_is_on_a_card _ Hr))).
Defined.

(** ** The memory game: what stays *)

Lemma laterBoard_refl (a : list Card) : laterBoard a a.
Proof.
  split; auto.
Qed.

Lemma laterBoard_trans (a b c : list Card) :
  laterBoard a b -> laterBoard b c -> laterBoard a c.
Proof.
  intros (H1 & H2) (H3 & H4). split; [congruence|auto].
Qed.

Lemma laterBoard_onCard (i : nat) (f : Card -> Card) (cards : list Card) :
  (forall c, symbol (f c) = symbol c) ->
  (forall c, matched c = true -> matched (f c) = true) ->
  laterBoard cards (onCard i f cards).
Proof.
  intros Hs Hm. split; [apply onCard_map, Hs|].
  intros j Hj. destruct (Nat.eq_dec i j) as [->|Hne].
  - destruct (flag_at matched _ _ _ Hj) as (c & Hc & Hmc).
    rewrite (flag_of matched _ _ _ (nth_error_onCard_same j f _ c Hc)).
    rewrite Hm; auto.
  - rewrite nth_error_map, nth_error_onCard_other, <- nth_error_map; auto.
Qed.

Lemma laterBoard_updateSelectedCard (g : Game) :
  laterBoard (grid g) (grid (updateSelectedCard g)).
Proof.
  split.
  - apply updateSelectedCard_map. reflexivity.
  - rewrite (updateSelectedCard_map matched) by reflexivity. auto.
Qed.

Lemma laterBoard_step (e : event) (g : Game) :
  laterBoard (grid g) (grid (step e g)).
Proof.
  destruct e as [key| | |id]; unfold step.
  - unfold handleKeyPress, moveSelection.
    repeat match goal with
      | |- context [if ?c then _ else _] => destruct c
      end;
      try apply laterBoard_refl;
      apply (laterBoard_updateSelectedCard
               {| currentPosition := _; grid := grid g;
                  flippedCards := _; matchedPairs := _; totalPairs := _;
                  isProcessing := _; timerStarted := _; timers := _;
                  sleeping := _ |}).
  - unfold confirmSelection.
    destruct (isProcessing g); [apply laterBoard_refl|].
    set (g1 := if negb (timerStarted g) then _ else g).
    assert (Hg1 : grid g1 = grid g).
    { unfold g1. destruct (timerStarted g); reflexivity. }
    clearbody g1. rewrite <- Hg1.
    destruct (cardAt (currentIndex g1) (grid g1)) as [c|];
      [|apply laterBoard_refl].
    destruct (matched c || flipped c); [apply laterBoard_refl|].
    assert (Hflip : laterBoard (grid g1)
              (onCard (Z.to_nat (currentIndex g1)) (setFlipped true)
                 (grid g1))).
    { apply laterBoard_onCard; auto. }
    cbn [flippedCards].
    destruct (List.length _ =? 2)%nat; [|exact Hflip].
    unfold checkMatch. cbn [flippedCards grid].
    destruct (flippedCards g1 ++ [Z.to_nat (currentIndex g1)])
      as [|a [|b rest]]; try exact Hflip.
    repeat match goal with
      | |- context [match ?c with Some _ => _ | None => _ end] =>
          destruct c
      | |- context [if ?c then _ else _] => destruct c
      end; try exact Hflip.
    unfold setSleeping, setGrid. cbn [grid].
    apply (laterBoard_trans _ _ _ Hflip).
    eapply laterBoard_trans; apply laterBoard_onCard; auto.
  - unfold wake.
    destruct (sleeping g) as [[i1 i2|i1 i2|]|]; [| | |apply laterBoard_refl].
    + unfold afterMatchSleep.
      set (F := fun c => setFlipped false (setMatched true c)).
      assert (Hm : laterBoard (grid g) (onCard i2 F (onCard i1 F (grid g)))).
      { eapply laterBoard_trans; apply laterBoard_onCard; auto. }
      cbn [matchedPairs totalPairs].
      destruct (S (matchedPairs g) =? totalPairs g)%nat.
      * exact Hm.
      * unfold finishCheckMatch.
        eapply laterBoard_trans; [exact Hm|].
        apply (laterBoard_updateSelectedCard
                 {| currentPosition := _;
                    grid := onCard i2 F (onCard i1 F (grid g));
                    flippedCards := _; matchedPairs := _; totalPairs := _;
                    isProcessing := _; timerStarted := _; timers := _;
                    sleeping := _ |}).
    + unfold afterMismatchSleep, finishCheckMatch, setGrid.
      cbn [currentPosition grid matchedPairs totalPairs timerStarted timers].
      set (F := fun c => setWrong false (setFlipped false c)).
      eapply laterBoard_trans;
        [|apply (laterBoard_updateSelectedCard
                   {| currentPosition := _;
                      grid := onCard i2 F (onCard i1 F (grid g));
                      flippedCards := _; matchedPairs := _;
                      totalPairs := _; isProcessing := _;
                      timerStarted := _; timers := _; sleeping := _ |})].
      eapply laterBoard_trans; apply laterBoard_onCard; auto.
    + unfold afterGameWonSleep, finishCheckMatch, setTimers.
      cbn [currentPosition grid matchedPairs totalPairs timerStarted timers].
      apply (laterBoard_updateSelectedCard
               {| currentPosition := _; grid := grid g;
                  flippedCards := _; matchedPairs := _; totalPairs := _;
                  isProcessing := _; timerStarted := _; timers := _;
                  sleeping := _ |}).
  - apply laterBoard_refl.
Qed.

(** X19: the cards stay where they are and a matched card stays matched.
    Whatever the player does and whatever timers run, every card keeps its
    symbol, and a card that carries the class [matched] carries it for the
    rest of the game. *)
Theorem matched_cards_stay (es : list event) (g : Game) :
  map symbol (grid (run es g)) = map symbol (grid g)
  /\ forall i,
      nth_error (map matched (grid g)) i = Some true ->
      nth_error (map matched (grid (run es g))) i = Some true.
Proof.
  change (laterBoard (grid g) (grid (run es g))).
  revert g. induction es as [|e es IH]; intro g.
  - apply laterBoard_refl.
  - cbn [run fold_left]. fold (run es (step e g)).
    exact (laterBoard_trans _ _ _ (laterBoard_step e g) (IH (step e g))).
Qed.

(** ** The memory game: turning the second card *)

Lemma busy_ignores_input (g : Game) :
  isProcessing g = true ->
  confirmSelection g = g /\ forall key, handleKeyPress key g = g.
Proof.
  intro Hp. unfold confirmSelection, handleKeyPress. rewrite Hp. auto.
Qed.

Lemma nth_error_assign_twice {A : Type} (i1 i2 : nat) (x y z : A)
  (l : list A) :
  i1 <> i2 ->
  nth_error l i1 = Some y ->
  nth_error l i2 = Some z ->
  nth_error (assign i2 x (assign i1 x l)) i1 = Some x
  /\ nth_error (assign i2 x (assign i1 x l)) i2 = Some x.
Proof.
  intros Hne H1 H2. split.
  - rewrite nth_error_assign_other by auto.
    apply nth_error_assign_same with (y := y). exact H1.
  - apply nth_error_assign_same with (y := z).
    rewrite nth_error_assign_other by auto. exact H2.
Qed.

(** X20: turning the second card settles the pair.  With one card face up
    and the cursor on another card that is neither flipped nor matched, a
    click on the confirm button sets [isProcessing], so that further clicks
    and keys are ignored until the pending [sleep] is over.  Then, if one of
    the two symbols is the joker or the symbols are equal, both cards are
    matched and face down and one more pair is counted; otherwise both cards
    are face down again without the class [wrong], no card became matched,
    the count is the same and input is accepted again. *)
Theorem second_card_settles_the_pair
  (g : Game) (i1 : nat) (c1 c2 : Card) :
  consistent g ->
  isProcessing g = false ->
  flippedCards g = [i1] ->
  nth_error (grid g) i1 = Some c1 ->
  cardAt (currentIndex g) (grid g) = Some c2 ->
  matched c2 = false ->
  flipped c2 = false ->
  isProcessing (confirmSelection g) = true
  /\ confirmSelection (confirmSelection g) = confirmSelection g
  /\ (forall key,
        handleKeyPress key (confirmSelection g) = confirmSelection g)
  /\ if String.eqb (symbol c1) jokerSymbol
        || String.eqb (symbol c2) jokerSymbol
        || String.eqb (symbol c1) (symbol c2)
     then
       matchedPairs (wake (confirmSelection g)) = S (matchedPairs g)
       /\ nth_error (map matched (grid (wake (confirmSelection g)))) i1
          = Some true
       /\ nth_error (map matched (grid (wake (confirmSelection g))))
            (Z.to_nat (currentIndex g))
          = Some true
       /\ nth_error (map flipped (grid (wake (confirmSelection g)))) i1
          = Some false
       /\ nth_error (map flipped (grid (wake (confirmSelection g))))
            (Z.to_nat (currentIndex g))
          = Some false
     else
       matchedPairs (wake (confirmSelection g)) = matchedPairs g
       /\ map matched (grid (wake (confirmSelection g)))
          = map matched (grid g)
       /\ nth_error (map flipped (grid (wake (confirmSelection g)))) i1
          = Some false
       /\ nth_error (map flipped (grid (wake (confirmSelection g))))
            (Z.to_nat (currentIndex g))
          = Some false
       /\ nth_error (map wrong (grid (wake (confirmSelection g)))) i1
          = Some false
       /\ nth_error (map wrong (grid (wake (confirmSelection g))))
            (Z.to_nat (currentIndex g))
          = Some false
       /\ isProcessing (wake (confirmSelection g)) = false
       /\ flippedCards (wake (confirmSelection g)) = [].
Proof.
  intros Hcons Hp Hfc Hc1 Hc2 Hm2 Hf2.
  destruct (consistent_idle g Hcons Hp) as (Hs & Hface).
  destruct Hface as [Hnil|(i & Hi & Hf1 & Hm1)]; [congruence|].
  rewrite Hfc in Hi. injection Hi as <-.
  apply cardAt_nth in Hc2 as Hn2.
  set (i2 := Z.to_nat (currentIndex g)) in *.
  assert (Hne : i1 <> i2).
  { intro E. subst i1. rewrite (flag_of flipped _ _ _ Hn2), Hf2 in Hf1.
    discriminate Hf1. }
  set (G2 := onCard i2 (setFlipped true) (grid g)).
  assert (H1 : nth_error G2 i1 = Some c1).
  { unfold G2. rewrite nth_error_onCard_other; auto. }
  assert (H2 : nth_error G2 i2 = Some (setFlipped true c2)).
  { unfold G2. apply nth_error_onCard_same, Hn2. }
  (* the state in which checkMatch is called *)
  assert (Hconf : exists started ts,
    confirmSelection g
    = checkMatch
        {| currentPosition := currentPosition g; grid := G2;
           flippedCards := [i1; i2]; matchedPairs := matchedPairs g;
           totalPairs := totalPairs g; isProcessing := true;
           timerStarted := started; timers := ts;
           sleeping := sleeping g |}).
  { unfold confirmSelection. rewrite Hp.
    destruct (timerStarted g); cbn [negb]; unfold currentIndex;
      cbn [currentPosition grid flippedCards matchedPairs totalPairs
           isProcessing timerStarted timers sleeping];
      fold (currentIndex g); rewrite Hc2, Hm2, Hf2, Hfc;
      cbn [orb app List.length Nat.eqb]; fold i2; fold G2; eauto. }
  destruct Hconf as (started & ts & Hconf).
  unfold checkMatch in Hconf. cbn [flippedCards grid] in Hconf.
  rewrite H1, H2 in Hconf.
  change (symbol (setFlipped true c2)) with (symbol c2) in Hconf.
  assert (Hl1 : nth_error (map flipped G2) i1 = Some true).
  { unfold G2. rewrite (onCard_assign flipped true) by reflexivity.
    rewrite nth_error_assign_other; auto. }
  assert (Hl2 : nth_error (map flipped G2) i2 = Some true).
  { rewrite (flag_of flipped _ _ _ H2). reflexivity. }
  assert (Hmat : map matched G2 = map matched (grid g)).
  { unfold G2. apply onCard_map. reflexivity. }
  destruct (String.eqb (symbol c1) jokerSymbol
            || String.eqb (symbol c2) jokerSymbol
            || String.eqb (symbol c1) (symbol c2)).
  - rewrite Hconf.
    split; [reflexivity|].
    split; [apply busy_ignores_input; reflexivity|].
    split; [apply busy_ignores_input; reflexivity|].
    unfold wake, setSleeping. cbn [sleeping]. unfold afterMatchSleep.
    cbn [currentPosition grid flippedCards matchedPairs totalPairs
         isProcessing timerStarted timers sleeping].
    set (F := fun c => setFlipped false (setMatched true c)).
    assert (Hgm : map matched (onCard i2 F (onCard i1 F G2))
                  = assign i2 true (assign i1 true (map matched G2))).
    { rewrite !(onCard_assign matched true) by reflexivity. reflexivity. }
    assert (Hgf : map flipped (onCard i2 F (onCard i1 F G2))
                  = assign i2 false (assign i1 false (map flipped G2))).
    { rewrite !(onCard_assign flipped false) by reflexivity. reflexivity. }
    assert (Hm1' : nth_error (map matched G2) i1 = Some false)
      by (rewrite Hmat; exact Hm1).
    assert (Hm2' : nth_error (map matched G2) i2 = Some false).
    { rewrite Hmat, (flag_of matched _ _ _ Hn2), Hm2. reflexivity. }
    destruct (nth_error_assign_twice i1 i2 true _ _ _ Hne Hm1' Hm2')
      as (Ma & Mb).
    destruct (nth_error_assign_twice i1 i2 false _ _ _ Hne Hl1 Hl2)
      as (Fa & Fb).
    destruct (S (matchedPairs g) =? totalPairs g)%nat.
    + unfold setSleeping, setTimers. cbn [matchedPairs grid].
      rewrite Hgm, Hgf. auto.
    + unfold finishCheckMatch.
      rewrite (proj1 (proj2 (proj2 (updateSelectedCard_keeps _)))).
      rewrite (updateSelectedCard_map matched),
        (updateSelectedCard_map flipped) by reflexivity.
      cbn [matchedPairs grid]. rewrite Hgm, Hgf. auto.
  - rewrite Hconf.
    split; [reflexivity|].
    split; [apply busy_ignores_input; reflexivity|].
    split; [apply busy_ignores_input; reflexivity|].
    unfold wake, setSleeping, setGrid. cbn [sleeping].
    unfold afterMismatchSleep, finishCheckMatch, setGrid.
    cbn [currentPosition grid flippedCards matchedPairs totalPairs
         isProcessing timerStarted timers sleeping].
    set (W := onCard i2 (setWrong true) (onCard i1 (setWrong true) G2)).
    set (F := fun c => setWrong false (setFlipped false c)).
    destruct (updateSelectedCard_keeps
                {| currentPosition := currentPosition g;
                   grid := onCard i2 F (onCard i1 F W);
                   flippedCards := []; matchedPairs := matchedPairs g;
                   totalPairs := totalPairs g; isProcessing := false;
                   timerStarted := started; timers := ts;
                   sleeping := None |})
      as (_ & K2 & K3 & _ & K5 & _).
    rewrite K2, K3, K5.
    rewrite (updateSelectedCard_map matched),
      (updateSelectedCard_map flipped), (updateSelectedCard_map wrong)
      by reflexivity.
    cbn [matchedPairs grid flippedCards isProcessing].
    assert (Hwf : map flipped W = map flipped G2).
    { unfold W. rewrite !(onCard_map flipped) by reflexivity.
      reflexivity. }
    assert (Hww : exists w1 w2,
      nth_error (map wrong W) i1 = Some w1
      /\ nth_error (map wrong W) i2 = Some w2).
    { unfold W. rewrite !(onCard_assign wrong true) by reflexivity.
      destruct (nth_error_assign_twice i1 i2 true
                  (wrong c1) (wrong (setFlipped true c2)) (map wrong G2) Hne
                  (flag_of wrong _ _ _ H1) (flag_of wrong _ _ _ H2))
        as (Wa & Wb).
      eauto. }
    destruct Hww as (w1 & w2 & Hw1 & Hw2).
    rewrite !(onCard_map matched) by reflexivity.
    rewrite !(onCard_assign flipped false) by reflexivity.
    rewrite !(onCard_assign wrong false) by reflexivity.
    rewrite Hwf.
    destruct (nth_error_assign_twice i1 i2 false _ _ _ Hne Hl1 Hl2)
      as (Fa & Fb).
    destruct (nth_error_assign_twice i1 i2 false _ _ _ Hne Hw1 Hw2)
      as (Wa & Wb).
    unfold W at 1. rewrite !(onCard_map matched) by reflexivity.
    auto 10.
Qed.

Lemma second_card_settles_the_pair_witness :
  reachable
    (step (KeyDown "ArrowRight")
       (step ConfirmClick (newGame (fun _ => 0%Q))))
  /\ flippedCards
       (step (KeyDown "ArrowRight")
          (step ConfirmClick (newGame (fun _ => 0%Q))))
     = [0%nat]
  /\ isProcessing
       (confirmSelection
          (step (KeyDown "ArrowRight")
             (step ConfirmClick (newGame (fun _ => 0%Q)))))
     = true.
Proof.
  set (g := step (KeyDown "ArrowRight")
              (step ConfirmClick (newGame (fun _ => 0%Q)))).
  assert (Hr : reachable g).
  { unfold g. do 2 apply reachable_step. apply reachable_new.
    intro k. split; [apply Qle_refl|reflexivity]. }
  assert (Hfc : flippedCards g = [0%nat]) by (vm_compute; reflexivity).
  split; [exact Hr|]. split; [exact Hfc|].
  refine (proj1
    (second_card_settles_the_pair g 0
       (nth 0 (grid g) (newCard "")) (nth 1 (grid g) (newCard ""))
       (game_reachable_consistent g Hr) _ Hfc _ _ _ _));
    vm_compute; reflexivity.
Defined.

(** ** The memory game: the clock *)













End MemoryGameFacts.
